(** * fix_use_client.py: a shallow embedding and its properties

    The script walks the [.js] files below a directory and, in each file
    whose first line holds [export const dynamic] and whose second line holds
    the ["use client"] directive, exchanges the two lines in place.

    Python values are rendered as follows.
    - [str] is [string]; a character is a code point below 256.
    - A text file is the [str] that text-mode reading yields for it, so the
      UTF-8 codec and the translation of line endings done by [open] sit
      below the model.
    - The file system is a directory tree of names, which [glob.glob] walks,
      and a finite map from file to content, which [open] consults. A file
      carries the errors that reading and writing it raise, if any.
    - [print] appends to a list of printed records, one per call.
    - A computation threads the machine state and either returns a value or
      raises an exception; the state reached when the exception was raised
      is kept.

    The script is given twice. The first rendering is the script on a
    machine where nothing but the files themselves gives way: [print]
    succeeds, every path names a file of its own, every directory can be
    listed and [glob] never runs out of stack. The second rendering is the
    same code on a machine described by an [environment], where a [print]
    can raise, two paths can lead to one file, a directory can refuse to
    be listed and [glob] raises [RecursionError] on a tree nested too
    deep. The two agree where the environment is sound ([run_on_ideal]).
    Nothing here models another process that changes the tree or the
    files while the script runs. *)

From Stdlib Require Import Ascii String DecimalString.
From stdpp Require Import gmap strings list fin_maps.

Set Warnings "-register-all".

(** ** Text primitives of the Python runtime *)

Module Py.

Definition newline : ascii := "010"%char.
Definition dquote : ascii := "034"%char.

(** [str.isspace] on a single character, restricted to code points below
    256: the C0 separators, space, NEL and no-break space. *)
Definition isspace (c : ascii) : bool :=
  match c with
  | "009" | "010" | "011" | "012" | "013"
  | "028" | "029" | "030" | "031" | " " | "133" | "160" => true
  | _ => false
  end%char.

Fixpoint lstrip (s : string) : string :=
  match s with
  | EmptyString => EmptyString
  | String c s' => if isspace c then lstrip s' else s
  end.

Fixpoint rstrip (s : string) : string :=
  match s with
  | EmptyString => EmptyString
  | String c s' =>
      match rstrip s' with
      | EmptyString => if isspace c then EmptyString else String c EmptyString
      | r => String c r
      end
  end.

(** [s.strip()] *)
Definition strip (s : string) : string := rstrip (lstrip s).

Fixpoint startswith (s p : string) : bool :=
  match p, s with
  | EmptyString, _ => true
  | String _ _, EmptyString => false
  | String a p', String b s' => if decide (a = b) then startswith s' p' else false
  end.

(** [needle in s] for strings *)
Fixpoint contains (needle s : string) : bool :=
  startswith s needle ||
  match s with
  | EmptyString => false
  | String _ s' => contains needle s'
  end.

(** [s.endswith(p)] *)
Fixpoint endswith (s p : string) : bool :=
  if decide (s = p) then true
  else match s with
       | EmptyString => false
       | String _ s' => endswith s' p
       end.

(** [f.readlines()]: the text cut after every newline; each line keeps its
    terminator and only the last one may lack it. *)
Fixpoint readlines (s : string) : list string :=
  match s with
  | EmptyString => []
  | String c s' =>
      if decide (c = newline) then String c EmptyString :: readlines s'
      else match readlines s' with
           | [] => [String c EmptyString]
           | l :: ls => String c l :: ls
           end
  end.

(** The text [f.writelines(lines)] leaves in a freshly truncated file. *)
Fixpoint writelines (lines : list string) : string :=
  match lines with
  | [] => EmptyString
  | l :: ls => l +:+ writelines ls
  end.

(** [str(n)] for a non-negative [int] *)
Definition str_int (n : nat) : string :=
  NilEmpty.string_of_uint (Nat.to_uint n).

Definition backslash : ascii := "092"%char.
Definition squote : ascii := "039"%char.

Definition hexdigit (n : nat) : ascii :=
  match String.get n "0123456789abcdef" with
  | Some c => c
  | None => "0"%char
  end.

(** [\xhh] for a character *)
Definition hex_escape (c : ascii) : string :=
  String backslash
    (String "x" (String (hexdigit (nat_of_ascii c / 16))
                   (String (hexdigit (nat_of_ascii c mod 16)) EmptyString))).

(** [str.isprintable] on a character above the ASCII range, restricted to
    code points below 256: all but the C1 controls, the no-break space and
    the soft hyphen. *)
Definition isprintable_high (c : ascii) : bool :=
  negb ((128 <=? nat_of_ascii c) && (nat_of_ascii c <=? 160))
  && negb (nat_of_ascii c =? 173).

(** What [repr] writes for one character of a string delimited by [quote]. *)
Definition repr_char (quote c : ascii) : string :=
  if decide (c = quote) then String backslash (String c EmptyString)
  else if decide (c = backslash) then String backslash (String c EmptyString)
  else if decide (c = "009"%char) then String backslash "t"
  else if decide (c = "010"%char) then String backslash "n"
  else if decide (c = "013"%char) then String backslash "r"
  else if (nat_of_ascii c <? 32) || (nat_of_ascii c =? 127) then hex_escape c
  else if nat_of_ascii c <? 127 then String c EmptyString
  else if isprintable_high c then String c EmptyString
  else hex_escape c.

Fixpoint repr_body (quote : ascii) (s : string) : string :=
  match s with
  | EmptyString => EmptyString
  | String c s' => repr_char quote c +:+ repr_body quote s'
  end.

(** [repr(s)] for a string: apostrophes around it, unless it holds an
    apostrophe and no double quote. *)
Definition repr (s : string) : string :=
  let quote :=
    if contains (String squote EmptyString) s && negb (contains (String dquote EmptyString) s)
    then dquote else squote in
  String quote (repr_body quote s +:+ String quote EmptyString).

End Py.


(** ** Exceptions

    Only subclasses of [Exception] arise from the calls the script makes:
    [OSError] (missing file, permission, a directory in place of a file, a
    broken pipe under [print]), [UnicodeDecodeError] and [UnicodeEncodeError]
    from the codecs, and [RecursionError] from [glob] on a tree nested too
    deep. [KeyboardInterrupt] and [SystemExit], which [except Exception]
    lets through, come from outside the script and are not modelled.
    [str_exn e] is what [{e}] formats to. *)

Inductive exn :=
| OSError (msg : string)
| UnicodeDecodeError (msg : string)
| UnicodeEncodeError (msg : string)
| RecursionError (msg : string).

Definition str_exn (e : exn) : string :=
  match e with
  | OSError msg => msg
  | UnicodeDecodeError msg => msg
  | UnicodeEncodeError msg => msg
  | RecursionError msg => msg
  end.

Global Instance exn_eq_dec : EqDecision exn.
Proof. solve_decision. Defined.

(** ** The file system *)

(** How writing a file back can go wrong: [open(_, 'w')] raises and the file
    is not touched, or the file is truncated and an error raised while the
    lines are written leaves only [kept] in it. [kept] is a text: what is
    left is taken to decode, and to fail afterwards as the file did
    before. *)
Inductive write_fault :=
| OpenFails (e : exn)
| WriteFails (e : exn) (kept : string).

Global Instance write_fault_eq_dec : EqDecision write_fault.
Proof. solve_decision. Defined.

(** A file as [open] sees it: the text a successful read yields, the error
    that opening it for reading (or decoding it) raises, if any, and the way
    writing it back fails, if it does. *)
Record file := mkfile {
  text : string;
  on_read : option exn;
  on_write : option write_fault
}.

Global Instance file_eq_dec : EqDecision file.
Proof. solve_decision. Defined.

Definition set_text (t : string) (f : file) : file :=
  mkfile t (on_read f) (on_write f).

(** A directory entry, with the entries below it when it is a directory.
    A link to a file is a [File] entry; where it leads is told by the
    [target] of the environment. *)
Inductive node :=
| File (name : string)
| Dir (name : string) (entries : list node).

Definition node_name (n : node) : string :=
  match n with
  | File name => name
  | Dir name _ => name
  end.

(** The machine state the script runs in. [mount] answers [os.chdir]: the
    entries below an absolute directory path, or the error raised for it.
    [cwd] holds the entries of the current directory; [disk] is keyed by
    path relative to it. [reads] lists the paths handed to [open(_, 'r')],
    oldest first. *)
Record state := mkstate {
  mount : string -> exn + list node;
  cwd : list node;
  disk : gmap string file;
  stdout : list string;
  reads : list string
}.

Definition set_cwd (es : list node) (s : state) : state :=
  mkstate (mount s) es (disk s) (stdout s) (reads s).
Definition set_disk (d : gmap string file) (s : state) : state :=
  mkstate (mount s) (cwd s) d (stdout s) (reads s).
Definition add_stdout (line : string) (s : state) : state :=
  mkstate (mount s) (cwd s) (disk s) (stdout s ++ [line]) (reads s).
Definition add_read (path : string) (s : state) : state :=
  mkstate (mount s) (cwd s) (disk s) (stdout s) (reads s ++ [path]).

(** ** Computations: state that survives a raised exception *)

Definition M (A : Type) : Type := state -> state * (exn + A).

Definition ret {A} (a : A) : M A := fun s => (s, inr a).
Definition raise {A} (e : exn) : M A := fun s => (s, inl e).
Definition bind {A B} (m : M A) (k : A -> M B) : M B :=
  fun s =>
    match m s with
    | (s', inl e) => (s', inl e)
    | (s', inr a) => k a s'
    end.
(** [try: m  except Exception as e: h e] *)
Definition try_except {A} (m : M A) (h : exn -> M A) : M A :=
  fun s =>
    match m s with
    | (s', inl e) => h e s'
    | (s', inr a) => (s', inr a)
    end.

Notation "'let*' x ':=' m 'in' k" := (bind m (fun x => k))
  (at level 10, x name, m at level 200, k at level 200,
   format "'[v' 'let*'  x  ':='  m  'in' '/' k ']'").

(** [print(line)] *)
Definition print (line : string) : M unit :=
  fun s => ret tt (add_stdout line s).

(** [os.chdir(path)] *)
Definition chdir (path : string) : M unit :=
  fun s =>
    match mount s path with
    | inl e => raise e s
    | inr es => ret tt (set_cwd es s)
    end.

(** The [FileNotFoundError] that [open] raises for a path that names
    nothing; the path is written as [repr] writes it. *)
Definition no_such_file (path : string) : exn :=
  OSError ("[Errno 2] No such file or directory: " +:+ Py.repr path).

(** [with open(file, 'r', encoding='utf-8') as f: lines = f.readlines()] *)
Definition open_readlines (path : string) : M (list string) :=
  fun s =>
    let s' := add_read path s in
    match disk s !! path with
    | None => raise (no_such_file path) s'
    | Some f =>
        match on_read f with
        | Some e => raise e s'
        | None => ret (Py.readlines (text f)) s'
        end
    end.

(** [with open(file, 'w', encoding='utf-8') as f: f.writelines(lines)].
    Mode ['w'] creates a missing file and truncates an existing one. *)
Definition open_writelines (path : string) (lines : list string) : M unit :=
  fun s =>
    match disk s !! path with
    | None =>
        ret tt (set_disk (<[path := mkfile (Py.writelines lines) None None]> (disk s)) s)
    | Some f =>
        match on_write f with
        | Some (OpenFails e) => raise e s
        | Some (WriteFails e kept) =>
            raise e (set_disk (<[path := set_text kept f]> (disk s)) s)
        | None =>
            ret tt (set_disk (<[path := set_text (Py.writelines lines) f]> (disk s)) s)
        end
    end.

(** ** glob.glob('**/*.js', recursive=True)

    The two facts about the platform that [glob] and [fnmatch] consult are
    parameters: the path separator [os.sep] and [os.path.normcase] (the
    identity on POSIX, lower-casing on Windows). *)

Section Script.

Variable sep : string.
Variable normcase : string -> string.

(** [os.path.join] of a relative prefix and a name. A name from a directory
    listing is not empty and holds no separator, so the branches of the
    library function for an absolute or separator-terminated component do
    not arise. *)
Definition os_path_join (a b : string) : string :=
  if decide (a = "") then b else a +:+ sep +:+ b.

(** [glob._join] *)
Definition glob_join (dirname basename : string) : string :=
  if decide (dirname = "") then basename
  else if decide (basename = "") then dirname
  else os_path_join dirname basename.

(** [glob._ishidden]: the name starts with a dot. *)
Definition ishidden (name : string) : bool := Py.startswith name ".".

(** One step of [glob._rlistdir] in directories-only mode: a visible
    directory yields itself and then everything found below it, each
    paired here with the entries it lists; hidden ones and plain files
    yield nothing. *)
Fixpoint rlistdir_entry (n : node) : list (string * list node) :=
  match n with
  | File _ => []
  | Dir x es =>
      if ishidden x then []
      else (x, es) :: List.map (fun ye => (glob_join x (fst ye), snd ye))
                               (List.flat_map rlistdir_entry es)
  end.

Definition rlistdir (es : list node) : list (string * list node) :=
  List.flat_map rlistdir_entry es.

(** [glob._glob2] for the component [**]: the directory itself, under the
    empty name, then its visible descendants. *)
Definition glob2 (es : list node) : list (string * list node) :=
  ("", es) :: rlistdir es.

(** [fnmatch.filter(names, '*.js')] *)
Definition fnmatch_filter_js (names : list string) : list string :=
  List.filter (fun x => Py.endswith (normcase x) ".js") names.

(** [glob._glob1] for the component [*.js]: hidden names are dropped
    before the pattern is tried. *)
Definition glob1 (es : list node) : list string :=
  fnmatch_filter_js (List.filter (fun x => negb (ishidden x)) (List.map node_name es)).

Definition glob_js (es : list node) : list string :=
  List.flat_map
    (fun d => List.map (os_path_join (fst d)) (glob1 (snd d)))
    (glob2 es).

(** [glob.glob('**/*.js', recursive=True)] in the current directory *)
Definition glob : M (list string) :=
  fun s => ret (glob_js (cwd s)) s.

(** ** The script *)

Definition export_const_dynamic : string := "export const dynamic".
Definition use_client : string :=
  String Py.dquote ("use client" +:+ String Py.dquote "").

(** The test of line 18 on the first two lines as read. *)
Definition needs_swap (l0 l1 : string) : bool :=
  let line0 := Py.strip l0 in
  let line1 := Py.strip l1 in
  Py.contains export_const_dynamic line0 && Py.contains use_client line1.

(** [f'Fixed: {file}'] and [f'Error processing {file}: {e}'] *)
Definition fixed_line (file : string) : string := "Fixed: " +:+ file.
Definition error_line (file : string) (e : exn) : string :=
  "Error processing " +:+ file +:+ ": " +:+ str_exn e.

(** The body of the [try] block for one file. *)
Definition try_body (file : string) (count : nat) : M nat :=
  let* lines := open_readlines file in
  match lines with
  | l0 :: l1 :: rest =>
      if needs_swap l0 l1 then
        let lines := l1 :: l0 :: rest in
        let* _ := open_writelines file lines in
        let* _ := print (fixed_line file) in
        ret (count + 1)
      else ret count
  | _ => ret count
  end.

(** One iteration of the [for] loop: the [try] block with its handler. *)
Definition iteration (file : string) (count : nat) : M nat :=
  try_except (try_body file count)
    (fun e =>
       let* _ := print (error_line file e) in
       ret count).

Fixpoint for_files (files : list string) (count : nat) : M nat :=
  match files with
  | [] => ret count
  | file :: rest =>
      let* count' := iteration file count in
      for_files rest count'
  end.

Definition summary (count : nat) : string :=
  String Py.newline ("Total files fixed: " +:+ Py.str_int count).

Definition fix_use_client_directive : M unit :=
  let* files := glob in
  let* count := for_files files 0 in
  print (summary count).

Definition root_dir : string := "d:\Laraib Creative\laraibcreative\frontend\src".

(** The [__main__] block. An exception that leaves it ends the process. *)
Definition main : M unit :=
  let* _ := chdir root_dir in
  fix_use_client_directive.

End Script.

(** ** The script on a machine that can fail it

    The definitions above are the script where nothing around it gives
    way: [print] accepts every record, every path is a file of its own,
    every directory can be listed and [glob] has all the stack it needs.
    What follows is the same code with these four let go. [console] gives
    the exception that [print] raises for a record, if any (an encoding
    error for that text, a broken pipe for any). [target] gives the file a
    path leads to once links are followed, and the disk is read and
    written under it, so that two paths can lead to one file. [listable]
    tells whether [os.scandir] succeeds on the directory reached from the
    current one through the given names. [max_depth] is the longest chain
    of nested visible directories that [glob] can walk before Python's
    recursion limit stops it (about a thousand by default). *)

Record environment := mkenv {
  console : string -> option exn;
  target : string -> string;
  listable : list string -> bool;
  max_depth : nat
}.

(** An entry as [glob._iterdir] shows it below the directories [above]:
    the [OSError] of a directory that cannot be listed is swallowed there,
    and the directory yields nothing. *)
Fixpoint shown (can_list : list string -> bool) (above : list string) (n : node) : node :=
  match n with
  | File x => File x
  | Dir x es =>
      Dir x (if can_list (above ++ [x])
             then List.map (shown can_list (above ++ [x])) es
             else [])
  end.

(** The current directory as [glob._iterdir] shows it. *)
Definition iterdir (env : environment) (es : list node) : list node :=
  if listable env [] then List.map (shown (listable env) []) es else [].

(** How deep [glob._rlistdir] recurses below an entry: one level for each
    nested directory that it enters, and it enters no hidden one. *)
Fixpoint nesting (n : node) : nat :=
  match n with
  | File _ => 0
  | Dir x es =>
      if ishidden x then 0
      else S (List.fold_right Nat.max 0 (List.map nesting es))
  end.

Definition visible_depth (es : list node) : nat :=
  List.fold_right Nat.max 0 (List.map nesting es).

Definition recursion_error : exn :=
  RecursionError "maximum recursion depth exceeded".

Section ScriptOn.

Variable env : environment.
Variable sep : string.
Variable normcase : string -> string.

(** [print(line)] *)
Definition print_on (line : string) : M unit :=
  fun s =>
    match console env line with
    | Some e => raise e s
    | None => print line s
    end.

(** [with open(file, 'r', encoding='utf-8') as f: lines = f.readlines()] *)
Definition open_readlines_on (path : string) : M (list string) :=
  fun s =>
    let s' := add_read path s in
    match disk s !! target env path with
    | None => raise (no_such_file path) s'
    | Some f =>
        match on_read f with
        | Some e => raise e s'
        | None => ret (Py.readlines (text f)) s'
        end
    end.

(** [with open(file, 'w', encoding='utf-8') as f: f.writelines(lines)] *)
Definition open_writelines_on (path : string) (lines : list string) : M unit :=
  fun s =>
    match disk s !! target env path with
    | None =>
        ret tt (set_disk (<[target env path := mkfile (Py.writelines lines) None None]>
                            (disk s)) s)
    | Some f =>
        match on_write f with
        | Some (OpenFails e) => raise e s
        | Some (WriteFails e kept) =>
            raise e (set_disk (<[target env path := set_text kept f]> (disk s)) s)
        | None =>
            ret tt (set_disk (<[target env path := set_text (Py.writelines lines) f]>
                                (disk s)) s)
        end
    end.

(** [glob.glob('**/*.js', recursive=True)]: the whole listing, or a
    [RecursionError] and no listing at all. *)
Definition glob_on : M (list string) :=
  fun s =>
    if decide (visible_depth (iterdir env (cwd s)) <= max_depth env)
    then ret (glob_js sep normcase (iterdir env (cwd s))) s
    else raise recursion_error s.

(** The body of the [try] block for one file. *)
Definition try_body_on (file : string) (count : nat) : M nat :=
  let* lines := open_readlines_on file in
  match lines with
  | l0 :: l1 :: rest =>
      if needs_swap l0 l1 then
        let lines := l1 :: l0 :: rest in
        let* _ := open_writelines_on file lines in
        let* _ := print_on (fixed_line file) in
        ret (count + 1)
      else ret count
  | _ => ret count
  end.

(** One iteration of the [for] loop. The handler's own [print] stands
    outside every [try]: what it raises leaves the loop. *)
Definition iteration_on (file : string) (count : nat) : M nat :=
  try_except (try_body_on file count)
    (fun e =>
       let* _ := print_on (error_line file e) in
       ret count).

Fixpoint for_files_on (files : list string) (count : nat) : M nat :=
  match files with
  | [] => ret count
  | file :: rest =>
      let* count' := iteration_on file count in
      for_files_on rest count'
  end.

Definition fix_use_client_directive_on : M unit :=
  let* files := glob_on in
  let* count := for_files_on files 0 in
  print_on (summary count).

Definition main_on : M unit :=
  let* _ := chdir root_dir in
  fix_use_client_directive_on.

End ScriptOn.

(** ** Auxiliary notions used in the statements *)

(** The string is empty or its last character is not white space. *)
Fixpoint ends_visible (s : string) : bool :=
  match s with
  | EmptyString => true
  | String c EmptyString => negb (Py.isspace c)
  | String _ s' => ends_visible s'
  end.

(** The string is not empty and its first character is not white space. *)
Definition starts_visible (s : string) : bool :=
  match s with
  | EmptyString => false
  | String c _ => negb (Py.isspace c)
  end.

(** The string holds no character [c]. *)
Fixpoint lacks (c : ascii) (s : string) : bool :=
  match s with
  | EmptyString => true
  | String a s' => negb (bool_decide (a = c)) && lacks c s'
  end.

(** The string holds no newline. *)
Definition nl_free (s : string) : bool := lacks Py.newline s.

(** The string ends in a newline and holds no other. *)
Fixpoint terminated (l : string) : bool :=
  match l with
  | EmptyString => false
  | String c EmptyString => bool_decide (c = Py.newline)
  | String c l' => negb (bool_decide (c = Py.newline)) && terminated l'
  end.

(** The shape of a list of lines that [readlines] can return: every line but
    the last is terminated, and the last is terminated or a non-empty run
    without newline. *)
Inductive lines_wf : list string -> Prop :=
| lines_nil : lines_wf []
| lines_last l : l <> "" -> nl_free l = true -> lines_wf [l]
| lines_cons l ls : terminated l = true -> lines_wf ls -> lines_wf (l :: ls).

(** What one pass over a file comes to, read off the disk before the pass:
    the file is rewritten and counted; it is left alone without a word; an
    exception is raised before the file is touched; or an exception is
    raised while the lines are written, when only [kept] is left of the
    file. *)
Inductive verdict :=
| Repaired
| Skipped
| Failed (e : exn)
| Damaged (e : exn) (kept : string).

Global Instance verdict_eq_dec : EqDecision verdict.
Proof. solve_decision. Defined.

Definition verdict_of (d : gmap string file) (path : string) : verdict :=
  match d !! path with
  | None => Failed (no_such_file path)
  | Some f =>
      match on_read f with
      | Some e => Failed e
      | None =>
          match Py.readlines (text f) with
          | l0 :: l1 :: _ =>
              if needs_swap l0 l1 then
                match on_write f with
                | Some (OpenFails e) => Failed e
                | Some (WriteFails e kept) => Damaged e kept
                | None => Repaired
                end
              else Skipped
          | _ => Skipped
          end
      end
  end.

Definition swap_first_two (lines : list string) : list string :=
  match lines with
  | l0 :: l1 :: rest => l1 :: l0 :: rest
  | _ => lines
  end.

(** The file after a repair. *)
Definition rewritten (f : file) : file :=
  set_text (Py.writelines (swap_first_two (Py.readlines (text f)))) f.

(** The file after a pass with the given verdict. *)
Definition after_pass (v : verdict) (f : file) : file :=
  match v with
  | Repaired => rewritten f
  | Damaged _ kept => set_text kept f
  | Skipped | Failed _ => f
  end.

(** The record a pass with the given verdict prints, if any. *)
Definition report_of (v : verdict) (path : string) : option string :=
  match v with
  | Repaired => Some (fixed_line path)
  | Skipped => None
  | Failed e | Damaged e _ => Some (error_line path e)
  end.

Definition report (d : gmap string file) (path : string) : option string :=
  report_of (verdict_of d path) path.

(** What a pass with the given verdict adds to the counter. *)
Definition counted (v : verdict) : nat :=
  match v with
  | Repaired => 1
  | _ => 0
  end.

Definition repaired_in (d : gmap string file) (files : list string) : list string :=
  filter (fun p => verdict_of d p = Repaired) files.

(** The records printed between two states. *)
Definition printed (s s' : state) : list string :=
  drop (length (stdout s)) (stdout s').

(** How many printed records are [Fixed:] lines. *)
Definition fixed_lines (out : list string) : nat :=
  length (List.filter (fun l => Py.startswith l "Fixed: ") out).

(** The paths whose file differs between two disks. *)
Definition changed_files (d d' : gmap string file) : gset string :=
  filter (fun p => d !! p <> d' !! p) (dom d ∪ dom d').

(** The condition under which a pass leaves a file alone: fewer than two
    lines, or the stripped line 0 without [export const dynamic], or the
    stripped line 1 without ["use client"]. *)
Definition skip_condition (lines : list string) : Prop :=
  length lines < 2
  \/ exists l0 l1 rest,
       lines = l0 :: l1 :: rest
       /\ (Py.contains export_const_dynamic (Py.strip l0) = false
           \/ Py.contains use_client (Py.strip l1) = false).

(** ** Files in the tree *)

(** [dir_at es ds es']: following the directory names [ds] from a directory
    that lists [es] leads to a directory that lists [es']. *)
Inductive dir_at : list node -> list string -> list node -> Prop :=
| dir_here es : dir_at es [] es
| dir_below es d es1 ds es' :
    In (Dir d es1) es -> dir_at es1 ds es' -> dir_at es (d :: ds) es'.

(** A plain file [name] lies in the directory reached through [ds]. *)
Definition file_at (es : list node) (ds : list string) (name : string) : Prop :=
  exists es', dir_at es ds es' /\ In (File name) es'.

(** The relative path of a directory, as [glob._rlistdir] assembles it. *)
Fixpoint dir_path (sep : string) (ds : list string) : string :=
  match ds with
  | [] => ""
  | d :: ds' => glob_join sep d (dir_path sep ds')
  end.

(** A tree as a file system keeps it: within one directory no name occurs
    twice, and a name is not empty and holds no separator [c]. *)
Inductive names_wf (c : ascii) : list node -> Prop :=
| names_wf_intro es :
    List.NoDup (List.map node_name es) ->
    (forall n, In n es -> node_name n <> "" /\ lacks c (node_name n) = true) ->
    (forall d es1, In (Dir d es1) es -> names_wf c es1) ->
    names_wf c es.

(** What a directory entry adds to the listing of the directory it is in:
    for a visible directory [d], the listing of [d] with [d] and the
    separator in front of every path. *)
Definition listed_below (c : ascii) (normcase : string -> string) (n : node) : list string :=
  match n with
  | File _ => []
  | Dir d es1 =>
      if ishidden d then []
      else List.map (fun p => d +:+ String c p) (glob_js (String c "") normcase es1)
  end.

(** ** Auxiliary notions for the machine that can fail *)

(** The verdict on [path] when its file is kept under [key]. *)
Definition verdict_at (d : gmap string file) (key path : string) : verdict :=
  match d !! key with
  | None => Failed (no_such_file path)
  | Some f =>
      match on_read f with
      | Some e => Failed e
      | None =>
          match Py.readlines (text f) with
          | l0 :: l1 :: _ =>
              if needs_swap l0 l1 then
                match on_write f with
                | Some (OpenFails e) => Failed e
                | Some (WriteFails e kept) => Damaged e kept
                | None => Repaired
                end
              else Skipped
          | _ => Skipped
          end
      end
  end.

(** What the handler makes of an exception: the record and the loop goes
    on, or the exception of its own [print]. *)
Definition handled (env : environment) (file : string) (e : exn) (count : nat)
    (s : state) : state * (exn + nat) :=
  match console env (error_line file e) with
  | None => (add_stdout (error_line file e) s, inr count)
  | Some e' => (s, inl e')
  end.

(** How an iteration ends once the file has been dealt with. *)
Definition concluded (env : environment) (file : string) (v : verdict) (count : nat)
    (s : state) : state * (exn + nat) :=
  match v with
  | Skipped => (s, inr count)
  | Repaired =>
      match console env (fixed_line file) with
      | None => (add_stdout (fixed_line file) s, inr (count + 1))
      | Some e' => handled env file e' count s
      end
  | Failed e | Damaged e _ => handled env file e count s
  end.

Definition repaired_on (env : environment) (d : gmap string file)
    (files : list string) : list string :=
  filter (fun p => verdict_at d (target env p) p = Repaired) files.

(** The console accepts every record. *)
Definition console_sound (env : environment) : Prop :=
  forall line, console env line = None.

(** Every path leads to a file of its own name. *)
Definition link_free (env : environment) : Prop :=
  forall path, target env path = path.

(** Every directory can be listed. *)
Definition all_listable (env : environment) : Prop :=
  forall ds, listable env ds = true.

(** The paths that the run is handed on this machine. *)
Definition listing_on (env : environment) (sep : string)
    (normcase : string -> string) (s : state) : list string :=
  glob_js sep normcase (iterdir env (cwd s)).

(** C2 as the specification words it, on any machine. *)
Definition counter_counts_changes_on (env : environment) (sep : string)
    (normcase : string -> string) (s : state) : Prop :=
  let s' := (fix_use_client_directive_on env sep normcase s).1 in
  last (stdout s') = Some (summary (size (changed_files (disk s) (disk s')))).

(** C4 as the specification words it, on any machine. *)
Definition examines_every_js_on (env : environment) (sep : string)
    (normcase : string -> string) (s : state) : Prop :=
  forall ds name,
    file_at (cwd s) ds name ->
    Py.endswith name ".js" = true ->
    In (os_path_join sep (dir_path sep ds) name)
       (reads (fix_use_client_directive_on env sep normcase s).1).

(** C5 as the specification words it, on any machine: whenever the [try]
    block raises for a file, the record is printed, the files after it
    are processed and the run ends with its summary. *)
Definition file_errors_are_isolated (env : environment) (sep : string)
    (normcase : string -> string) (s : state) : Prop :=
  forall before file after s1 s1' count1 e,
    glob_on env sep normcase s = (s, inr (before ++ file :: after)) ->
    for_files_on env before 0 s = (s1, inr count1) ->
    try_body_on env file count1 s1 = (s1', inl e) ->
    exists s2 count2,
      for_files_on env after count1
        (add_stdout ("Error processing " +:+ file +:+ ": " +:+ str_exn e) s1')
      = (s2, inr count2)
      /\ fix_use_client_directive_on env sep normcase s
         = (add_stdout (summary count2) s2, inr tt).

(** ** Sample files and states *)

Definition nl : string := String Py.newline "".
Definition quoted (s : string) : string :=
  String Py.dquote (s +:+ String Py.dquote "").

Definition line_dynamic : string :=
  "export const dynamic = " +:+ quoted "force-dynamic" +:+ nl.
Definition line_client : string := use_client +:+ nl.
Definition line_other : string := "other code..." +:+ nl.

(** Scenario 2 of the specification: the two lines in the wrong order. *)
Definition text_misordered : string := line_dynamic +:+ line_client +:+ line_other.
(** Scenario 1: the two lines in the right order. *)
Definition text_ordered : string := line_client +:+ line_dynamic +:+ line_other.
(** Two lines in the wrong order, the second one without a terminator. *)
Definition text_unterminated : string := line_dynamic +:+ use_client.
(** A first line that carries both markers, twice. *)
Definition line_both : string := "export const dynamic = " +:+ use_client +:+ nl.
Definition text_twins : string := line_both +:+ line_both.
(** Two different lines that each carry both markers. *)
Definition text_two_way : string :=
  ("export const dynamic = " +:+ use_client +:+ " // a" +:+ nl)
  +:+ ("export const dynamic = " +:+ use_client +:+ " // b" +:+ nl).

Definition plain (t : string) : file := mkfile t None None.

(** A machine whose root directory lists [tree], already entered. *)
Definition machine (tree : list node) (d : gmap string file) : state :=
  mkstate (fun path => if decide (path = root_dir) then inr tree
                       else inl (no_such_file path))
          tree d [] [].

(** A machine on which the root directory does not exist. *)
Definition machine_without_root : state :=
  mkstate (fun path => inl (no_such_file path)) []
          {[ "page.js" := plain text_misordered ]} [] [].

Definition one_page (t : string) : state :=
  machine [File "page.js"] {[ "page.js" := plain t ]}.

(** Three files that match and two that do not, one level down for some. *)
Definition five_files : state :=
  machine
    [File "a.js"; File "b.js";
     Dir "app" [File "c.js"; File "d.js"; Dir "deep" [File "e.js"]]]
    (<["a.js" := plain text_misordered]>
       (<["b.js" := plain text_ordered]>
          (<["app/c.js" := plain text_misordered]>
             (<["app/d.js" := plain "x"]>
                {[ "app/deep/e.js" := plain text_misordered ]})))).

Definition cannot_decode : exn :=
  UnicodeDecodeError
    "'utf-8' codec can't decode byte 0xff in position 0: invalid start byte".
Definition read_only : exn :=
  OSError "[Errno 13] Permission denied: 'locked.js'".

(** A file that cannot be decoded and one that cannot be opened for
    writing, between two that are repaired. *)
Definition with_failures : state :=
  machine
    [File "a.js"; File "bad.js"; File "locked.js"; File "c.js"]
    (<["a.js" := plain text_misordered]>
       (<["bad.js" := mkfile "" (Some cannot_decode) None]>
          (<["locked.js" := mkfile text_misordered None (Some (OpenFails read_only))]>
             {[ "c.js" := plain text_misordered ]}))).

(** A project root with a page and a dot-file. *)
Definition with_dotfile : state :=
  machine [File "index.js"; File ".eslintrc.js"]
    (<["index.js" := plain text_misordered]>
       {[ ".eslintrc.js" := plain "module.exports = {}" ]}).

(** A machine around which nothing gives way. *)
Definition sound_env : environment :=
  mkenv (fun _ => None) (fun path => path) (fun _ => true) 1000.

Definition broken_pipe : exn := OSError "[Errno 32] Broken pipe".

(** A console that is gone: every [print] raises. *)
Definition deaf_env : environment :=
  mkenv (fun _ => Some broken_pipe) (fun path => path) (fun _ => true) 1000.

(** [a.js] and [b.js] are two names of one file. *)
Definition linked_env : environment :=
  mkenv (fun _ => None)
        (fun path => if decide (path = "b.js") then "a.js" else path)
        (fun _ => true) 1000.

(** An interpreter that gives [glob] one level of directories. *)
Definition shallow_env : environment :=
  mkenv (fun _ => None) (fun path => path) (fun _ => true) 1.

(** A machine on which the directory [app] cannot be listed. *)
Definition closed_app_env : environment :=
  mkenv (fun _ => None) (fun path => path)
        (fun ds => negb (bool_decide (ds = ["app"]))) 1000.

(** Two names, one file, whose two lines each carry both markers. *)
Definition two_names : state :=
  machine [File "a.js"; File "b.js"] {[ "a.js" := plain text_two_way ]}.

(** The first character outside ASCII, with its position counted from [n]. *)
Fixpoint first_non_ascii (n : nat) (s : string) : option (nat * ascii) :=
  match s with
  | EmptyString => None
  | String c s' =>
      if 128 <=? nat_of_ascii c then Some (n, c) else first_non_ascii (S n) s'
  end.

(** [print] on a console whose encoding is ASCII. *)
Definition ascii_console (line : string) : option exn :=
  match first_non_ascii 0 line with
  | None => None
  | Some (n, c) =>
      Some (UnicodeEncodeError
              ("'ascii' codec can't encode character '" +:+ Py.hex_escape c
               +:+ "' in position " +:+ Py.str_int n
               +:+ ": ordinal not in range(128)"))
  end.

Definition ascii_env : environment :=
  mkenv ascii_console (fun path => path) (fun _ => true) 1000.

(** A file name with an e acute in it. *)
Definition cafe_js : string := "caf" +:+ String "233"%char ".js".

(** A file that cannot be decoded, under a name that the console cannot
    encode, then one to repair. *)
Definition cafe_then_good : state :=
  machine [File cafe_js; File "c.js"]
    (<[cafe_js := mkfile "" (Some cannot_decode) None]>
       {[ "c.js" := plain text_misordered ]}).

(** * Facts about the text primitives *)

Section TextFacts.

Implicit Types (s t n : string) (c : ascii).

Lemma append_cons c s t : String c s +:+ t = String c (s +:+ t).
Proof. reflexivity. Qed.

Lemma append_empty_r s : s +:+ "" = s.
Proof. induction s as [|c s IH]; [done|]. by rewrite append_cons, IH. Qed.

Lemma append_assoc s t u : (s +:+ t) +:+ u = s +:+ (t +:+ u).
Proof. induction s as [|c s IH]; [done|]. by rewrite !append_cons, IH. Qed.

Lemma startswith_empty s : Py.startswith s "" = true.
Proof. by destruct s. Qed.

Lemma startswith_nil n : n <> "" -> Py.startswith "" n = false.
Proof. by destruct n. Qed.

Lemma contains_nil n : n <> "" -> Py.contains n "" = false.
Proof. intros Hn. cbn [Py.contains]. by rewrite startswith_nil. Qed.

Lemma ends_visible_tail c n : ends_visible (String c n) = true -> ends_visible n = true.
Proof. by destruct n. Qed.

Lemma ends_visible_space c n :
  ends_visible (String c n) = true -> Py.isspace c = true -> n <> "".
Proof. intros Hv Hc ->. simpl in Hv. by rewrite Hc in Hv. Qed.

(** Leading white space never starts an occurrence of a needle whose first
    character is visible. *)
Lemma contains_lstrip n s :
  starts_visible n = true -> Py.contains n (Py.lstrip s) = Py.contains n s.
Proof.
  destruct n as [|a n]; [done|]. simpl. intros Ha.
  induction s as [|c s IH]; [done|].
  cbn [Py.lstrip]. destruct (Py.isspace c) eqn:Hc; [|done].
  rewrite IH. cbn [Py.contains Py.startswith].
  destruct (decide (a = c)) as [->|_]; [|done].
  by rewrite Hc in Ha.
Qed.

Lemma startswith_rstrip n s :
  ends_visible n = true -> Py.startswith (Py.rstrip s) n = Py.startswith s n.
Proof.
  revert n. induction s as [|c s IH]; intros n Hn; [done|].
  destruct n as [|a n]; [by rewrite !startswith_empty|].
  pose proof (ends_visible_tail _ _ Hn) as Hn'.
  cbn [Py.rstrip]. destruct (Py.rstrip s) as [|r0 r] eqn:Hr.
  - destruct (Py.isspace c) eqn:Hc; cbn [Py.startswith].
    + destruct (decide (a = c)) as [->|_]; [|done].
      rewrite <- (IH n Hn'). symmetry. apply startswith_nil.
      by apply (ends_visible_space c).
    + destruct (decide (a = c)); [|done]. by rewrite <- (IH n Hn').
  - cbn [Py.startswith]. destruct (decide (a = c)); [|done]. by apply IH.
Qed.

(** Trailing white space never ends an occurrence of a needle whose last
    character is visible. *)
Lemma contains_rstrip n s :
  n <> "" -> ends_visible n = true -> Py.contains n (Py.rstrip s) = Py.contains n s.
Proof.
  intros Hne Hn. induction s as [|c s IH]; [done|].
  cbn [Py.contains]. rewrite <- (startswith_rstrip n (String c s) Hn), <- IH.
  cbn [Py.rstrip]. destruct (Py.rstrip s) as [|r0 r] eqn:Hr.
  - destruct (Py.isspace c); cbn [Py.contains]; [|done].
    by rewrite startswith_nil.
  - done.
Qed.

Lemma contains_strip n s :
  starts_visible n = true -> ends_visible n = true ->
  Py.contains n (Py.strip s) = Py.contains n s.
Proof.
  intros Hs He. unfold Py.strip.
  rewrite contains_rstrip; [by apply contains_lstrip| by destruct n |done].
Qed.

(** *** Lines *)

Lemma length_append s t :
  String.length (s +:+ t) = String.length s + String.length t.
Proof. induction s as [|c s IH]; [done|]. rewrite append_cons. simpl. by rewrite IH. Qed.

Lemma append_eq_r_empty s t : s +:+ t = t -> s = "".
Proof.
  intros H. apply (f_equal String.length) in H. rewrite length_append in H.
  destruct s; [done|]. simpl in H. lia.
Qed.

Lemma append_inv_tail s t u : s +:+ u = t +:+ u -> s = t.
Proof.
  revert t. induction s as [|c s IH]; intros t H.
  - symmetry. by apply (append_eq_r_empty t u).
  - destruct t as [|d t].
    + by apply (append_eq_r_empty (String c s) u) in H.
    + rewrite !append_cons in H. injection H as -> H. f_equal. by apply IH.
Qed.

Lemma terminated_cons c l :
  terminated (String c l) = true ->
  (c = Py.newline /\ l = "") \/ (c <> Py.newline /\ terminated l = true).
Proof.
  destruct l as [|d l]; cbn [terminated].
  - intros H%bool_decide_eq_true. by left.
  - intros [H1%negb_true_iff%bool_decide_eq_false H2]%andb_true_iff. by right.
Qed.

Lemma terminated_newline : terminated (String Py.newline "") = true.
Proof. reflexivity. Qed.

Lemma terminated_cons_intro c l :
  c <> Py.newline -> terminated l = true -> terminated (String c l) = true.
Proof.
  intros Hc Hl. destruct l as [|d l]; [done|]. cbn [terminated] in *.
  by rewrite bool_decide_eq_false_2.
Qed.

Lemma nl_free_cons c l :
  nl_free (String c l) = true <-> c <> Py.newline /\ nl_free l = true.
Proof.
  unfold nl_free. cbn [lacks].
  rewrite andb_true_iff, negb_true_iff, bool_decide_eq_false. tauto.
Qed.

(** A terminated line in front of a text is the first line read from it. *)
Lemma readlines_terminated l t :
  terminated l = true -> Py.readlines (l +:+ t) = l :: Py.readlines t.
Proof.
  induction l as [|c l IH]; [done|]. intros H. rewrite append_cons.
  destruct (terminated_cons _ _ H) as [[-> ->]|[Hc Hl]].
  - done.
  - cbn [Py.readlines]. rewrite decide_False by done. by rewrite IH.
Qed.

Lemma readlines_unterminated l :
  l <> "" -> nl_free l = true -> Py.readlines l = [l].
Proof.
  induction l as [|c l IH]; [done|]. intros _ [Hc Hl]%nl_free_cons.
  cbn [Py.readlines]. rewrite decide_False by done.
  destruct l as [|d l]; [done|]. by rewrite IH.
Qed.

(** [readlines] after [writelines] gives the lines back when they have the
    shape of lines. *)
Lemma readlines_writelines ls : lines_wf ls -> Py.readlines (Py.writelines ls) = ls.
Proof.
  induction 1 as [|l Hne Hl|l ls Hl _ IH]; cbn [Py.writelines].
  - done.
  - rewrite append_empty_r. by apply readlines_unterminated.
  - by rewrite readlines_terminated, IH.
Qed.

(** Writing back what was read restores the text. *)
Lemma writelines_readlines s : Py.writelines (Py.readlines s) = s.
Proof.
  induction s as [|c s IH]; [done|]. cbn [Py.readlines].
  destruct (decide (c = Py.newline)).
  - cbn [Py.writelines]. by rewrite IH.
  - destruct (Py.readlines s) as [|l ls]; cbn [Py.writelines] in *.
    + by rewrite <- IH.
    + by rewrite append_cons, IH.
Qed.

Lemma readlines_wf s : lines_wf (Py.readlines s).
Proof.
  induction s as [|c s IH]; [constructor|]. cbn [Py.readlines].
  destruct (decide (c = Py.newline)) as [->|Hc].
  - by apply lines_cons.
  - inversion IH as [|l Hne Hl Heq|l ls Hl Hls Heq].
    + apply lines_last; [done|]. by apply nl_free_cons.
    + apply lines_last; [done|]. by apply nl_free_cons.
    + apply lines_cons; [|done]. by apply terminated_cons_intro.
Qed.

(** Two terminated lines that start the same text are the same line. *)
Lemma terminated_prefix_unique a b u v :
  terminated a = true -> terminated b = true -> a +:+ u = b +:+ v -> a = b.
Proof.
  revert b. induction a as [|c a IH]; [done|]. intros [|d b] Ha Hb; [done|].
  rewrite !append_cons. intros [= -> Heq].
  destruct (terminated_cons _ _ Ha) as [[Hc ->]|[Hc Ha']],
           (terminated_cons _ _ Hb) as [[Hd ->]|[Hd Hb']]; try done.
  f_equal. by apply IH.
Qed.

Lemma terminated_append a b :
  nl_free a = true -> terminated b = true -> terminated (a +:+ b) = true.
Proof.
  induction a as [|c a IH]; [done|]. intros [Hc Ha]%nl_free_cons Hb.
  rewrite append_cons. apply terminated_cons_intro; [done|]. by apply IH.
Qed.

(** Exchanging two different first lines of lines as read changes the text
    written back. *)
Lemma swap_changes_text l0 l1 rest :
  lines_wf (l0 :: l1 :: rest) -> l0 <> l1 ->
  Py.writelines (l1 :: l0 :: rest) <> Py.writelines (l0 :: l1 :: rest).
Proof.
  intros Hwf Hne. cbn [Py.writelines]. intros Heq.
  inversion Hwf as [| |? ? Hl0 Hwf1]; subst.
  inversion Hwf1 as [|? Hl1e Hl1|? ? Hl1 _]; subst.
  - cbn [Py.writelines] in Heq. rewrite !append_empty_r in Heq.
    assert (terminated (l1 +:+ l0) = true) as Hl by by apply terminated_append.
    rewrite <- (append_empty_r (l1 +:+ l0)) in Heq.
    apply (terminated_prefix_unique _ _ _ _ Hl Hl0) in Heq.
    by apply append_eq_r_empty in Heq.
  - apply Hne. symmetry. by apply (terminated_prefix_unique _ _ _ _ Hl1 Hl0) in Heq.
Qed.

(** When the second line is terminated, the file reads back after the swap
    as the same lines with the first two exchanged. *)
Lemma swap_rereads_swapped s l0 l1 rest :
  Py.readlines s = l0 :: l1 :: rest -> terminated l1 = true ->
  Py.readlines (Py.writelines (l1 :: l0 :: rest)) = l1 :: l0 :: rest.
Proof.
  intros Hs Hl1. apply readlines_writelines.
  pose proof (readlines_wf s) as Hwf. rewrite Hs in Hwf.
  inversion Hwf as [| |? ? Hl0 Hwf1]; subst.
  apply lines_cons; [done|].
  inversion Hwf1 as [|? ? ?|? ? _ Hrest]; subst.
  - apply lines_cons; [done|constructor].
  - by apply lines_cons.
Qed.

End TextFacts.

(** * Facts about one pass of the loop *)

Section LoopFacts.

Implicit Types (s : state) (d : gmap string file) (file path : string)
  (count : nat) (files : list string) (v : verdict).

Lemma verdict_of_ext d d' path :
  d !! path = d' !! path -> verdict_of d path = verdict_of d' path.
Proof. unfold verdict_of. by intros ->. Qed.

Lemma insert_as_alter (g : file -> file) d path f :
  d !! path = Some f -> <[path := g f]> d = alter g path d.
Proof.
  intros Hf. apply map_eq. intros p. rewrite lookup_alter, lookup_insert.
  destruct (decide (path = p)) as [<-|]; [by rewrite Hf|done].
Qed.

Lemma alter_same (g : file -> file) d path :
  (forall f, d !! path = Some f -> g f = f) -> alter g path d = d.
Proof.
  intros Hg. apply map_eq. intros p. rewrite lookup_alter.
  destruct (decide (path = p)) as [<-|]; [|done].
  destruct (d !! path) as [f|] eqn:Hf; [|done]. cbn. by rewrite Hg.
Qed.

Lemma result_eq (m : string -> exn + list node) (c : list node) d1 d2
    (out1 out2 rs : list string) (n1 n2 : nat) :
  d1 = d2 -> out1 = out2 -> n1 = n2 ->
  (mkstate m c d1 out1 rs, inr n1) = (mkstate m c d2 out2 rs, @inr exn nat n2).
Proof. by intros -> -> ->. Qed.

(** One iteration, whatever happens in it, in terms of the verdict on the
    disk it starts from. No exception leaves it. *)
Lemma iteration_spec file count s :
  iteration file count s =
    (mkstate (mount s) (cwd s)
       (alter (after_pass (verdict_of (disk s) file)) file (disk s))
       (stdout s ++ option_list (report (disk s) file))
       (reads s ++ [file]),
     inr (count + counted (verdict_of (disk s) file))).
Proof.
  destruct s as [m c d out rs].
  unfold report, verdict_of, iteration, try_except, try_body, bind, open_readlines.
  cbn [disk mount cwd stdout reads add_read].
  destruct (d !! file) as [f|] eqn:Hf.
  2:{ apply result_eq; [|done|cbn; lia].
      symmetry. by apply alter_same. }
  destruct (on_read f) as [e|] eqn:Hr.
  { apply result_eq; [|done|cbn; lia]. symmetry. by apply alter_same. }
  cbn [raise ret].
  destruct (Py.readlines (text f)) as [|l0 [|l1 rest]] eqn:Hl.
  1,2: apply result_eq; [|cbn; by rewrite app_nil_r|cbn; lia].
  1,2: symmetry; by apply alter_same.
  destruct (needs_swap l0 l1).
  2:{ apply result_eq; [|cbn; by rewrite app_nil_r|cbn; lia].
      symmetry. by apply alter_same. }
  unfold open_writelines. cbn [disk add_read]. rewrite Hf.
  destruct (on_write f) as [[e|e kept]|] eqn:Hw.
  - apply result_eq; [|done|cbn; lia]. symmetry. by apply alter_same.
  - apply result_eq; [|done|cbn; lia].
    apply (insert_as_alter (after_pass (Damaged e kept)) d file f Hf).
  - apply result_eq; [|done..].
    rewrite <- (insert_as_alter (after_pass Repaired) d file f Hf).
    cbn [after_pass]. unfold rewritten. by rewrite Hl.
Qed.

Lemma iteration_returns file count s :
  exists s' count', iteration file count s = (s', inr count').
Proof. rewrite iteration_spec. eauto. Qed.

Lemma for_files_returns files count s :
  exists s' count', for_files files count s = (s', inr count').
Proof.
  revert count s. induction files as [|file files IH]; intros count s.
  - by exists s, count.
  - cbn [for_files]. unfold bind. rewrite iteration_spec. apply IH.
Qed.

Lemma for_files_app files1 files2 count s s1 count1 :
  for_files files1 count s = (s1, inr count1) ->
  for_files (files1 ++ files2) count s = for_files files2 count1 s1.
Proof.
  revert count s. induction files1 as [|file files1 IH]; intros count s.
  - by intros [= -> ->].
  - cbn [for_files app]. unfold bind. rewrite iteration_spec. apply IH.
Qed.

Lemma iteration_disk_other file path count s :
  file <> path -> disk (iteration file count s).1 !! path = disk s !! path.
Proof. intros Hne. rewrite iteration_spec. cbn. by rewrite lookup_alter_ne. Qed.

(** A pass that neither repairs nor damages leaves the disk as it is. *)
Lemma iteration_disk_kept file count s :
  after_pass (verdict_of (disk s) file) = id ->
  disk (iteration file count s).1 = disk s.
Proof.
  intros Hid. rewrite iteration_spec. cbn. apply alter_same. intros f _. by rewrite Hid.
Qed.

(** A file that a pass would neither repair nor damage is the same after
    any number of passes over any files. *)
Lemma for_files_keeps files path count s :
  after_pass (verdict_of (disk s) path) = id ->
  disk (for_files files count s).1 !! path = disk s !! path.
Proof.
  revert count s. induction files as [|file files IH]; intros count s Hv; [done|].
  cbn [for_files]. unfold bind.
  destruct (iteration file count s) as [s1 [e|c1]] eqn:Hit.
  { destruct (iteration_returns file count s) as (? & ? & ?). congruence. }
  assert (disk s1 !! path = disk s !! path) as Hs1.
  { replace s1 with (iteration file count s).1 by by rewrite Hit.
    destruct (decide (file = path)) as [->|Hne].
    - by rewrite iteration_disk_kept.
    - by apply iteration_disk_other. }
  rewrite IH; [done|]. by rewrite (verdict_of_ext _ (disk s)).
Qed.

Lemma repaired_in_cons d file files :
  length (repaired_in d (file :: files))
  = counted (verdict_of d file) + length (repaired_in d files).
Proof.
  unfold repaired_in. destruct (verdict_of d file) eqn:Hv.
  - by rewrite filter_cons_True.
  - rewrite filter_cons_False; [done|]. by rewrite Hv.
  - rewrite filter_cons_False; [done|]. by rewrite Hv.
  - rewrite filter_cons_False; [done|]. by rewrite Hv.
Qed.

Lemma omap_report_cons d file files :
  omap (report d) (file :: files) = option_list (report d file) ++ omap (report d) files.
Proof. cbn. by destruct (report d file). Qed.

(** The whole loop over distinct paths, in terms of a disk [d0] that agrees
    with the starting one on those paths. *)
Lemma for_files_distinct_from d0 files count s :
  NoDup files ->
  (forall p, p ∈ files -> disk s !! p = d0 !! p) ->
  exists s',
    for_files files count s = (s', inr (count + length (repaired_in d0 files)))
    /\ mount s' = mount s /\ cwd s' = cwd s
    /\ stdout s' = stdout s ++ omap (report d0) files
    /\ reads s' = reads s ++ files
    /\ (forall p, p ∈ files -> disk s' !! p = after_pass (verdict_of d0 p) <$> d0 !! p)
    /\ (forall p, p ∉ files -> disk s' !! p = disk s !! p).
Proof.
  revert count s. induction files as [|file files IH]; intros count s Hnd Hd0.
  { exists s. cbn. rewrite !app_nil_r, Nat.add_0_r.
    repeat split; try done. intros p Hp. by apply elem_of_nil in Hp. }
  apply NoDup_cons in Hnd as [Hfile Hnd].
  assert (disk s !! file = d0 !! file) as Hfile0 by (apply Hd0; by left).
  pose proof (verdict_of_ext _ _ _ Hfile0) as Hv.
  cbn [for_files]. unfold bind. rewrite iteration_spec.
  set (s1 := mkstate _ _ _ _ _).
  destruct (IH (count + counted (verdict_of (disk s) file)) s1 Hnd)
    as (s' & Hrun & Hm & Hc & Ho & Hr & Hin & Hout).
  { intros p Hp. cbn. rewrite lookup_alter_ne by (by intros ->). apply Hd0. by right. }
  exists s'. repeat split; try done.
  - rewrite Hrun, repaired_in_cons, Hv. do 2 f_equal. lia.
  - rewrite Ho, omap_report_cons. cbn. unfold report. by rewrite Hv, <- app_assoc.
  - rewrite Hr. cbn. by rewrite <- app_assoc.
  - intros p [->|Hp]%elem_of_cons; [|by apply Hin].
    rewrite (Hout _ Hfile). cbn. by rewrite lookup_alter_eq, Hv, Hfile0.
  - intros p [Hne Hp]%not_elem_of_cons.
    rewrite (Hout _ Hp). cbn. by rewrite lookup_alter_ne.
Qed.

(** The whole loop over distinct paths, in terms of the disk it starts
    from. *)
Lemma for_files_distinct files count s :
  NoDup files ->
  exists s',
    for_files files count s = (s', inr (count + length (repaired_in (disk s) files)))
    /\ mount s' = mount s /\ cwd s' = cwd s
    /\ stdout s' = stdout s ++ omap (report (disk s)) files
    /\ reads s' = reads s ++ files
    /\ (forall p, p ∈ files ->
                  disk s' !! p = after_pass (verdict_of (disk s) p) <$> disk s !! p)
    /\ (forall p, p ∉ files -> disk s' !! p = disk s !! p).
Proof. intros Hnd. by apply for_files_distinct_from. Qed.

Lemma verdict_repaired d path :
  verdict_of d path = Repaired ->
  exists f l0 l1 rest,
    d !! path = Some f /\ Py.readlines (text f) = l0 :: l1 :: rest
    /\ needs_swap l0 l1 = true.
Proof.
  unfold verdict_of. destruct (d !! path) as [f|]; [|done].
  destruct (on_read f); [done|].
  destruct (Py.readlines (text f)) as [|l0 [|l1 rest]] eqn:Hl; [done..|].
  destruct (needs_swap l0 l1) eqn:Hn; [|done]. intros _. by exists f, l0, l1, rest.
Qed.

(** A repair changes the file unless its first two lines are the same. *)
Lemma rewritten_differs f l0 l1 rest :
  Py.readlines (text f) = l0 :: l1 :: rest -> l0 <> l1 -> rewritten f <> f.
Proof.
  intros Hl Hne Heq. apply (f_equal text) in Heq. unfold rewritten in Heq.
  cbn [text set_text] in Heq. rewrite Hl in Heq. cbn [swap_first_two] in Heq.
  rewrite <- (writelines_readlines (text f)), Hl in Heq.
  revert Heq. apply swap_changes_text; [|done].
  rewrite <- Hl. apply readlines_wf.
Qed.

Lemma startswith_append p t : Py.startswith (p +:+ t) p = true.
Proof.
  induction p as [|c p IH]; [by rewrite startswith_empty|].
  rewrite append_cons. cbn [Py.startswith]. by rewrite decide_True.
Qed.

Lemma fixed_lines_app out1 out2 :
  fixed_lines (out1 ++ out2) = fixed_lines out1 + fixed_lines out2.
Proof. unfold fixed_lines. by rewrite List.filter_app, length_app. Qed.


(** A pass prints a [Fixed:] record exactly when it adds to the counter. *)
Lemma fixed_lines_report v path :
  fixed_lines (option_list (report_of v path)) = counted v.
Proof.
  destruct v; [|reflexivity..].
  change (fixed_lines [fixed_line path] = 1).
  unfold fixed_lines, fixed_line. cbn [List.filter]. by rewrite startswith_append.
Qed.


(** Every path of the list is opened for reading, in order. *)
Lemma for_files_reads files count s :
  reads (for_files files count s).1 = reads s ++ files.
Proof.
  revert count s. induction files as [|file files IH]; intros count s.
  { cbn. by rewrite app_nil_r. }
  cbn [for_files]. unfold bind. rewrite iteration_spec, IH. cbn.
  by rewrite <- app_assoc.
Qed.

End LoopFacts.

(** * The run as a whole *)

Section RunFacts.

Variable sep : string.
Variable normcase : string -> string.

Local Abbreviation run := (fix_use_client_directive sep normcase).
Local Abbreviation listing s := (glob_js sep normcase (cwd s)).

(** The run is the loop over the listing followed by the summary; no
    exception leaves it. *)
Lemma run_unfold s :
  exists s' count,
    for_files (listing s) 0 s = (s', inr count)
    /\ run s = (add_stdout (summary count) s', inr tt).
Proof.
  destruct (for_files_returns (listing s) 0 s) as (s' & count & Hrun).
  exists s', count. split; [done|].
  unfold fix_use_client_directive, bind, glob, ret. by rewrite Hrun.
Qed.

Lemma run_repairs s path f l0 l1 rest :
  NoDup (listing s) ->
  path ∈ listing s ->
  disk s !! path = Some f ->
  on_read f = None -> on_write f = None ->
  Py.readlines (text f) = l0 :: l1 :: rest ->
  needs_swap l0 l1 = true ->
  disk (run s).1 !! path = Some (set_text (Py.writelines (l1 :: l0 :: rest)) f).
Proof.
  intros Hnd Hpath Hf Hr Hw Hl Hn.
  destruct (for_files_distinct _ 0 s Hnd) as (s1 & Hloop & _ & _ & _ & _ & Hin & _).
  destruct (run_unfold s) as (s1' & count & Hloop' & ->).
  rewrite Hloop in Hloop'. injection Hloop' as <- <-.
  cbn [fst disk add_stdout]. rewrite (Hin _ Hpath), Hf.
  unfold verdict_of. rewrite Hf, Hr, Hl, Hn, Hw. cbn. unfold rewritten. by rewrite Hl.
Qed.

(** Where the swap does what it is meant to: when the second line has its
    terminator, a repaired file reads back as the same lines with the first
    two exchanged. *)
Lemma repair_swaps_terminated_lines s path f l0 l1 rest :
  NoDup (listing s) ->
  path ∈ listing s ->
  disk s !! path = Some f ->
  on_read f = None -> on_write f = None ->
  Py.readlines (text f) = l0 :: l1 :: rest ->
  needs_swap l0 l1 = true ->
  terminated l1 = true ->
  exists f',
    disk (run s).1 !! path = Some f'
    /\ Py.readlines (text f') = l1 :: l0 :: rest.
Proof.
  intros Hnd Hpath Hf Hr Hw Hl Hn Hl1. eexists. split.
  - by apply (run_repairs s path f l0 l1 rest).
  - cbn [text set_text]. by apply (swap_rereads_swapped (text f)).
Qed.

(** Where it does not: when the second line is the last one and lacks its
    terminator, a repaired file reads back as a single line, the old second
    line run into the old first one. *)
Lemma repair_merges_unterminated_line s path f l0 l1 :
  NoDup (listing s) ->
  path ∈ listing s ->
  disk s !! path = Some f ->
  on_read f = None -> on_write f = None ->
  Py.readlines (text f) = [l0; l1] ->
  needs_swap l0 l1 = true ->
  terminated l1 = false ->
  exists f',
    disk (run s).1 !! path = Some f'
    /\ Py.readlines (text f') = [l1 +:+ l0].
Proof.
  intros Hnd Hpath Hf Hr Hw Hl Hn Hl1. eexists. split.
  - by apply (run_repairs s path f l0 l1 []).
  - cbn [text set_text Py.writelines]. rewrite append_empty_r.
    pose proof (readlines_wf (text f)) as Hwf. rewrite Hl in Hwf.
    inversion Hwf as [| |? ? Hl0 Hwf1]; subst.
    inversion Hwf1 as [|? Hne Hfree|? ? Hterm _]; subst; [|congruence].
    rewrite <- (append_empty_r (l1 +:+ l0)).
    rewrite readlines_terminated by by apply terminated_append.
    by rewrite append_empty_r.
Qed.

End RunFacts.

(** * Facts about the listing *)

Section GlobFacts.

Variable sep : string.
Variable normcase : string -> string.

Lemma glob_join_empty d : glob_join sep d "" = d.
Proof. unfold glob_join. destruct (decide (d = "")) as [->|]; [done|]. by rewrite decide_True. Qed.

(** A directory reached through visible names is visited by the recursive
    listing, under the path assembled from those names. *)
Lemma rlistdir_dir_at es d ds es' :
  dir_at es (d :: ds) es' ->
  Forall (fun x => ishidden x = false) (d :: ds) ->
  In (dir_path sep (d :: ds), es') (rlistdir sep es).
Proof.
  revert es d. induction ds as [|d' ds IH]; intros es d Hat Hvis.
  - inversion Hat as [|? ? es1 ? ? Hin Hsub]; subst. inversion Hsub; subst.
    apply in_flat_map. exists (Dir d es'). split; [done|].
    cbn [rlistdir_entry dir_path]. rewrite glob_join_empty.
    apply Forall_cons_1 in Hvis as [-> _]. by left.
  - inversion Hat as [|? ? es1 ? ? Hin Hsub]; subst.
    apply Forall_cons_1 in Hvis as [Hd Hvis].
    apply in_flat_map. exists (Dir d es1). split; [done|].
    cbn [rlistdir_entry]. rewrite Hd. right.
    change (dir_path sep (d :: d' :: ds)) with (glob_join sep d (dir_path sep (d' :: ds))).
    apply (in_map (fun ye => (glob_join sep d ye.1, ye.2))
                  _ (dir_path sep (d' :: ds), es')).
    by apply IH.
Qed.

Lemma glob2_dir_at es ds es' :
  dir_at es ds es' ->
  Forall (fun x => ishidden x = false) ds ->
  In (dir_path sep ds, es') (glob2 sep es).
Proof.
  destruct ds as [|d ds]; intros Hat Hvis.
  - inversion Hat; subst. by left.
  - right. by apply rlistdir_dir_at.
Qed.

Lemma glob1_file es name :
  In (File name) es ->
  ishidden name = false ->
  Py.endswith (normcase name) ".js" = true ->
  In name (glob1 normcase es).
Proof.
  intros Hin Hvis Hjs. unfold glob1, fnmatch_filter_js.
  apply filter_In. split; [|done].
  apply filter_In. split; [|by rewrite Hvis].
  by apply (in_map node_name _ (File name)).
Qed.

Lemma glob_js_file es ds name :
  file_at es ds name ->
  Forall (fun x => ishidden x = false) ds ->
  ishidden name = false ->
  Py.endswith (normcase name) ".js" = true ->
  In (os_path_join sep (dir_path sep ds) name) (glob_js sep normcase es).
Proof.
  intros (es' & Hat & Hin) Hvis Hname Hjs. unfold glob_js.
  apply in_flat_map. exists (dir_path sep ds, es'). split.
  - by apply glob2_dir_at.
  - apply in_map. by apply glob1_file.
Qed.

End GlobFacts.

(** * The listing of a well-formed tree holds no path twice *)

Section ListingDistinct.

Variable c : ascii.
Variable normcase : string -> string.

Local Abbreviation sep := (String c "").

Lemma lacks_first_sep x x' y y' :
  lacks c x = true -> lacks c x' = true ->
  x +:+ String c y = x' +:+ String c y' -> x = x' /\ y = y'.
Proof.
  revert x'. induction x as [|a x IH]; intros [|a' x'] Hx Hx'; rewrite ?append_cons.
  - by intros [= ->].
  - intros [= <- _]. cbn in Hx'. by rewrite bool_decide_eq_true_2 in Hx'.
  - intros [= -> _]. cbn in Hx. by rewrite bool_decide_eq_true_2 in Hx.
  - intros [= -> Heq]. cbn in Hx, Hx'.
    apply andb_true_iff in Hx as [_ Hx], Hx' as [_ Hx'].
    by destruct (IH x' Hx Hx' Heq) as [-> ->].
Qed.

Lemma lacks_no_sep x x' y' : lacks c x = true -> x <> x' +:+ String c y'.
Proof.
  revert x. induction x' as [|a x' IH]; intros x Hx ->.
  - change (lacks c (String c y') = true) in Hx.
    cbn in Hx. by rewrite bool_decide_eq_true_2 in Hx.
  - rewrite append_cons in Hx. cbn in Hx.
    apply andb_true_iff in Hx as [_ Hx]. by apply (IH _ Hx).
Qed.

Lemma append_inv_head s t u : s +:+ t = s +:+ u -> t = u.
Proof. induction s as [|a s IH]; [done|]. rewrite !append_cons. intros [= H]. by apply IH. Qed.

Lemma os_path_join_empty name : os_path_join sep "" name = name.
Proof. done. Qed.

Lemma os_path_join_below d q name :
  d <> "" ->
  os_path_join sep (glob_join sep d q) name = d +:+ String c (os_path_join sep q name).
Proof.
  intros Hd. unfold glob_join, os_path_join.
  rewrite (decide_False (P := d = "")) by done.
  destruct (decide (q = "")) as [->|Hq].
  - by rewrite (decide_False (P := d = "")) by done.
  - rewrite (decide_False (P := d = "")) by done.
    rewrite decide_False; [by rewrite !append_assoc|]. by destruct d.
Qed.

Local Abbreviation in_dir :=
  (fun dp : string * list node =>
     List.map (os_path_join sep dp.1) (glob1 normcase dp.2)).

Lemma in_dir_below d (l : list (string * list node)) :
  d <> "" ->
  List.flat_map in_dir (List.map (fun ye => (glob_join sep d ye.1, ye.2)) l)
  = List.map (fun p => d +:+ String c p) (List.flat_map in_dir l).
Proof.
  intros Hd. induction l as [|[q es'] l IH]; [done|].
  cbn [List.map List.flat_map fst snd]. rewrite IH, List.map_app, List.map_map.
  f_equal. apply List.map_ext. intros name. by apply os_path_join_below.
Qed.

Lemma flat_map_flat_map {A B C} (g : A -> list B) (h : B -> list C) (l : list A) :
  List.flat_map h (List.flat_map g l) = List.flat_map (fun a => List.flat_map h (g a)) l.
Proof.
  induction l as [|a l IH]; [done|]. cbn. by rewrite List.flat_map_app, IH.
Qed.

Lemma flat_map_ext_on {A B} (f g : A -> list B) (l : list A) :
  (forall a, In a l -> f a = g a) -> List.flat_map f l = List.flat_map g l.
Proof.
  induction l as [|a l IH]; [done|]. intros Hfg. cbn.
  rewrite (Hfg a) by by left. rewrite IH; [done|]. intros b Hb. apply Hfg. by right.
Qed.

(** The listing of a directory is its own matching names followed by what
    each entry adds. *)
Lemma glob_js_unfold es :
  (forall n, In n es -> node_name n <> "") ->
  glob_js sep normcase es
  = glob1 normcase es ++ List.flat_map (listed_below c normcase) es.
Proof.
  intros Hne. unfold glob_js, glob2, rlistdir. cbn [List.flat_map fst snd].
  f_equal.
  - rewrite <- (List.map_id (glob1 normcase es)) at 2. by apply List.map_ext.
  - rewrite flat_map_flat_map. apply flat_map_ext_on.
    intros [name|d es1] Hin; [done|]. cbn [rlistdir_entry listed_below].
    destruct (ishidden d); [done|].
    assert (d <> "") as Hd by apply (Hne _ Hin).
    cbn [List.flat_map fst snd]. rewrite in_dir_below by done.
    unfold glob_js, glob2, rlistdir. cbn [List.flat_map fst snd].
    rewrite List.map_app, List.map_map. f_equal.
    apply List.map_ext. intros name. unfold os_path_join.
    by rewrite decide_False by done.
Qed.

Lemma glob1_names es x :
  In x (glob1 normcase es) -> exists n, In n es /\ node_name n = x.
Proof.
  unfold glob1, fnmatch_filter_js.
  intros [[[n [Hn Hin]]%List.in_map_iff _]%List.filter_In _]%List.filter_In. eauto.
Qed.

Lemma glob1_NoDup es :
  List.NoDup (List.map node_name es) -> List.NoDup (glob1 normcase es).
Proof. intros Hnd. by do 2 apply List.NoDup_filter. Qed.

Lemma listed_below_form n x :
  In x (listed_below c normcase n) ->
  exists d es1 p, n = Dir d es1 /\ x = d +:+ String c p.
Proof.
  destruct n as [name|d es1]; [done|]. cbn [listed_below].
  destruct (ishidden d); [done|].
  intros [p [<- _]]%List.in_map_iff. by exists d, es1, p.
Qed.

Lemma listed_below_NoDup l :
  List.NoDup (List.map node_name l) ->
  (forall n, In n l -> node_name n <> "" /\ lacks c (node_name n) = true) ->
  (forall d es1, In (Dir d es1) l -> List.NoDup (glob_js sep normcase es1)) ->
  List.NoDup (List.flat_map (listed_below c normcase) l).
Proof.
  induction l as [|n l IH]; intros Hnames Hok Hsub; [constructor|].
  cbn [List.map] in Hnames. apply List.NoDup_cons_iff in Hnames as [Hn Hnames].
  cbn [List.flat_map]. apply List.NoDup_app.
  - destruct n as [name|d es1]; [constructor|]. cbn [listed_below].
    destruct (ishidden d); [constructor|].
    apply List.NoDup_map_NoDup_ForallPairs.
    + intros p p' _ _ Heq. apply append_inv_head in Heq. by injection Heq.
    + apply (Hsub d es1). by left.
  - apply IH; [done|..].
    + intros n' Hn'. apply Hok. by right.
    + intros d es1 Hd. apply (Hsub d es1). by right.
  - intros x (d & es1 & p & -> & ->)%listed_below_form
           (n' & Hn' & (d' & es1' & p' & -> & Heq)%listed_below_form)%List.in_flat_map.
    assert (lacks c d = true) as Hd by (apply (Hok (Dir d es1)); by left).
    assert (lacks c d' = true) as Hd' by (apply (Hok (Dir d' es1')); by right).
    destruct (lacks_first_sep _ _ _ _ Hd Hd' Heq) as [-> _].
    apply Hn. by apply (List.in_map node_name _ (Dir d' es1')).
Qed.

(** In a well-formed tree the listing names every path once. *)
Lemma listing_NoDup es : names_wf c es -> NoDup (glob_js sep normcase es).
Proof.
  intros Hwf. apply NoDup_ListNoDup.
  induction Hwf as [es Hnames Hok _ IH].
  rewrite glob_js_unfold by (intros n Hn; by apply Hok).
  apply List.NoDup_app.
  - by apply glob1_NoDup.
  - by apply listed_below_NoDup.
  - intros x (n & Hn & <-)%glob1_names
           (n' & _ & (d & es1 & p & _ & Heq)%listed_below_form)%List.in_flat_map.
    destruct (Hok n Hn) as [_ Hlacks]. by apply (lacks_no_sep _ d p Hlacks).
Qed.

End ListingDistinct.

(** * Facts about the machine that can fail *)

Section OnFacts.

Variable env : environment.

Implicit Types (s : state) (d : gmap string file) (file path key : string)
  (count : nat) (files : list string) (v : verdict).

Lemma verdict_at_ext d d' key path :
  d !! key = d' !! key -> verdict_at d key path = verdict_at d' key path.
Proof. unfold verdict_at. by intros ->. Qed.

(** One iteration, whatever happens in it, in terms of the verdict on the
    disk it starts from: the file is dealt with as the verdict says, and
    the console decides how the iteration ends. *)
Lemma iteration_on_spec file count s :
  iteration_on env file count s =
    concluded env file (verdict_at (disk s) (target env file) file) count
      (mkstate (mount s) (cwd s)
         (alter (after_pass (verdict_at (disk s) (target env file) file))
                (target env file) (disk s))
         (stdout s) (reads s ++ [file])).
Proof.
  destruct s as [m c d out rs].
  unfold verdict_at, iteration_on, try_except, try_body_on, bind, open_readlines_on.
  cbn [disk mount cwd stdout reads add_read].
  destruct (d !! target env file) as [f|] eqn:Hf.
  2:{ rewrite alter_same by done. cbn [raise concluded]. unfold handled, print_on, print, ret.
      by destruct (console env _). }
  destruct (on_read f) as [e|] eqn:Hr.
  { rewrite alter_same by done. cbn [raise concluded]. unfold handled, print_on, print, ret.
    by destruct (console env _). }
  cbn [raise ret].
  destruct (Py.readlines (text f)) as [|l0 [|l1 rest]] eqn:Hl.
  1,2: by rewrite alter_same by done.
  destruct (needs_swap l0 l1).
  2:{ by rewrite alter_same by done. }
  unfold open_writelines_on. cbn [disk add_read]. rewrite Hf.
  destruct (on_write f) as [[e|e kept]|] eqn:Hw.
  - rewrite alter_same by done. cbn [raise concluded]. unfold handled, print_on, print, ret.
    by destruct (console env _).
  - rewrite <- (insert_as_alter (after_pass (Damaged e kept)) d _ f Hf).
    cbn [raise concluded after_pass]. unfold handled, print_on, print, ret.
    by destruct (console env _).
  - rewrite <- (insert_as_alter (after_pass Repaired) d _ f Hf).
    cbn [ret concluded after_pass]. unfold rewritten. rewrite Hl. cbn [swap_first_two].
    unfold handled, print_on, print, ret, raise, set_disk, add_stdout.
    cbn [disk mount cwd stdout reads].
    destruct (console env (fixed_line file)); [|done].
    by destruct (console env _).
Qed.

(** However an iteration ends, it has opened its file for reading and has
    dealt with it as the verdict says. *)
Lemma concluded_state file v count s :
  mount (concluded env file v count s).1 = mount s
  /\ cwd (concluded env file v count s).1 = cwd s
  /\ disk (concluded env file v count s).1 = disk s
  /\ reads (concluded env file v count s).1 = reads s
  /\ exists out, stdout (concluded env file v count s).1 = stdout s ++ out.
Proof.
  assert (forall e, mount (handled env file e count s).1 = mount s
                    /\ cwd (handled env file e count s).1 = cwd s
                    /\ disk (handled env file e count s).1 = disk s
                    /\ reads (handled env file e count s).1 = reads s
                    /\ exists out, stdout (handled env file e count s).1 = stdout s ++ out)
    as Hh.
  { intros e. unfold handled. destruct (console env _); cbn; repeat split; eauto.
    exists []. by rewrite app_nil_r. }
  destruct v as [| |e|e kept]; cbn [concluded]; [|..|apply Hh|apply Hh].
  - destruct (console env _); [apply Hh|]. cbn. repeat split; eauto.
  - cbn. repeat split. exists []. by rewrite app_nil_r.
Qed.

Lemma iteration_on_state file count s :
  mount (iteration_on env file count s).1 = mount s
  /\ cwd (iteration_on env file count s).1 = cwd s
  /\ disk (iteration_on env file count s).1
     = alter (after_pass (verdict_at (disk s) (target env file) file))
             (target env file) (disk s)
  /\ reads (iteration_on env file count s).1 = reads s ++ [file]
  /\ exists out, stdout (iteration_on env file count s).1 = stdout s ++ out.
Proof.
  rewrite iteration_on_spec. set (s1 := mkstate _ _ _ _ _).
  destruct (concluded_state file (verdict_at (disk s) (target env file) file) count s1)
    as (-> & -> & -> & -> & Hout).
  done.
Qed.

(** When the console accepts every record, an iteration ends as on the
    machine where nothing gives way. *)
Lemma concluded_sound file v count s :
  console_sound env ->
  concluded env file v count s
  = (mkstate (mount s) (cwd s) (disk s) (stdout s ++ option_list (report_of v file))
       (reads s),
     inr (count + counted v)).
Proof.
  intros Hc. destruct s as [m c d out rs].
  destruct v as [| |e|e kept]; cbn [concluded]; unfold handled; rewrite ?Hc; cbn.
  - done.
  - by rewrite app_nil_r, Nat.add_0_r.
  - by rewrite Nat.add_0_r.
  - by rewrite Nat.add_0_r.
Qed.

Lemma for_files_on_app files1 files2 count s s1 count1 :
  for_files_on env files1 count s = (s1, inr count1) ->
  for_files_on env (files1 ++ files2) count s = for_files_on env files2 count1 s1.
Proof.
  revert count s. induction files1 as [|file files1 IH]; intros count s.
  - by intros [= -> ->].
  - cbn [for_files_on app]. unfold bind.
    destruct (iteration_on env file count s) as [s' [e|c']]; [done|]. apply IH.
Qed.

(** Whether or not the loop is cut short, the state it leaves has the
    mount table and the current directory it started with, the same set
    of files, and the records that were there before any new one. *)
Lemma for_files_on_state files count s :
  mount (for_files_on env files count s).1 = mount s
  /\ cwd (for_files_on env files count s).1 = cwd s
  /\ dom (disk (for_files_on env files count s).1) = dom (disk s)
  /\ exists out, stdout (for_files_on env files count s).1 = stdout s ++ out.
Proof.
  revert count s. induction files as [|file files IH]; intros count s.
  { cbn. repeat split. exists []. by rewrite app_nil_r. }
  cbn [for_files_on]. unfold bind.
  destruct (iteration_on_state file count s) as (Hm & Hc & Hd & _ & out & Ho).
  destruct (iteration_on env file count s) as [s1 [e|c1]]; cbn [fst] in *.
  { repeat split; [done..|by rewrite Hd, dom_alter_L|eauto]. }
  destruct (IH c1 s1) as (-> & -> & -> & out' & ->).
  rewrite Hd, dom_alter_L, Ho, <- app_assoc. eauto.
Qed.

(** A file that no path of the loop leads to is left as it is, whether or
    not the loop is cut short. *)
Lemma for_files_on_other files key count s :
  key ∉ target env <$> files ->
  disk (for_files_on env files count s).1 !! key = disk s !! key.
Proof.
  revert count s. induction files as [|file files IH]; intros count s Hkey; [done|].
  rewrite fmap_cons in Hkey. apply not_elem_of_cons in Hkey as [Hne Hkey].
  cbn [for_files_on]. unfold bind.
  destruct (iteration_on_state file count s) as (_ & _ & Hd & _).
  destruct (iteration_on env file count s) as [s1 [e|c1]]; cbn [fst] in *.
  - rewrite Hd. by rewrite lookup_alter_ne.
  - rewrite IH by done. rewrite Hd. by rewrite lookup_alter_ne.
Qed.

(** A loop that runs to its end has opened every path, in order. *)
Lemma for_files_on_reads files count s s' count' :
  for_files_on env files count s = (s', inr count') ->
  reads s' = reads s ++ files.
Proof.
  revert count s. induction files as [|file files IH]; intros count s.
  { intros [= <- _]. by rewrite app_nil_r. }
  cbn [for_files_on]. unfold bind.
  destruct (iteration_on_state file count s) as (_ & _ & _ & Hr & _).
  destruct (iteration_on env file count s) as [s1 [e|c1]]; [done|].
  intros Hrest. rewrite (IH _ _ Hrest). cbn [fst] in Hr. by rewrite Hr, <- app_assoc.
Qed.

Lemma repaired_on_cons d file files :
  length (repaired_on env d (file :: files))
  = counted (verdict_at d (target env file) file) + length (repaired_on env d files).
Proof.
  unfold repaired_on. destruct (verdict_at d (target env file) file) eqn:Hv.
  - by rewrite filter_cons_True.
  - rewrite filter_cons_False; [done|]. by rewrite Hv.
  - rewrite filter_cons_False; [done|]. by rewrite Hv.
  - rewrite filter_cons_False; [done|]. by rewrite Hv.
Qed.

(** With a console that accepts every record the loop runs to its end, and
    the counter grows by the number of [Fixed:] records printed. *)
Lemma for_files_on_counts files count s :
  console_sound env ->
  exists s' out,
    for_files_on env files count s = (s', inr (count + fixed_lines out))
    /\ stdout s' = stdout s ++ out.
Proof.
  intros Hc. revert count s. induction files as [|file files IH]; intros count s.
  { exists s, []. cbn. by rewrite Nat.add_0_r, app_nil_r. }
  cbn [for_files_on]. unfold bind. rewrite iteration_on_spec, concluded_sound by done.
  set (v := verdict_at (disk s) (target env file) file).
  set (s1 := mkstate _ _ _ _ _).
  destruct (IH (count + counted v) s1) as (s' & out & -> & Hout).
  exists s', (option_list (report_of v file) ++ out). split.
  - rewrite fixed_lines_app, fixed_lines_report. do 2 f_equal. lia.
  - rewrite Hout. cbn. by rewrite <- app_assoc.
Qed.

(** The whole loop over paths that lead to distinct files, with a console
    that accepts every record, in terms of a disk [d0] that agrees with
    the starting one on those files. *)
Lemma for_files_on_distinct_from d0 files count s :
  console_sound env ->
  NoDup (target env <$> files) ->
  (forall p, p ∈ files -> disk s !! target env p = d0 !! target env p) ->
  exists s',
    for_files_on env files count s
    = (s', inr (count + length (repaired_on env d0 files)))
    /\ (forall p, p ∈ files ->
          disk s' !! target env p
          = after_pass (verdict_at d0 (target env p) p) <$> d0 !! target env p)
    /\ (forall key, key ∉ target env <$> files -> disk s' !! key = disk s !! key).
Proof.
  intros Hc. revert count s. induction files as [|file files IH]; intros count s Hnd Hd0.
  { exists s. cbn. rewrite Nat.add_0_r.
    repeat split; try done. intros p Hp. by apply elem_of_nil in Hp. }
  rewrite fmap_cons in Hnd. apply NoDup_cons in Hnd as [Hfile Hnd].
  assert (disk s !! target env file = d0 !! target env file) as Hfile0
    by (apply Hd0; by left).
  pose proof (verdict_at_ext _ _ _ file Hfile0) as Hv.
  cbn [for_files_on]. unfold bind. rewrite iteration_on_spec, concluded_sound by done.
  set (s1 := mkstate _ _ _ _ _).
  destruct (IH (count + counted (verdict_at (disk s) (target env file) file)) s1 Hnd)
    as (s' & Hrun & Hin & Hout).
  { intros p Hp. cbn. rewrite lookup_alter_ne.
    - apply Hd0. by right.
    - intros Heq. apply Hfile. rewrite Heq. by apply list_elem_of_fmap_2. }
  exists s'. repeat split.
  - rewrite Hrun, repaired_on_cons, Hv. do 2 f_equal. lia.
  - intros p [->|Hp]%elem_of_cons; [|by apply Hin].
    rewrite (Hout _ Hfile). cbn. by rewrite lookup_alter_eq, Hv, Hfile0.
  - intros key Hkey. rewrite fmap_cons in Hkey.
    apply not_elem_of_cons in Hkey as [Hne Hkey].
    rewrite (Hout _ Hkey). cbn. by rewrite lookup_alter_ne.
Qed.

Lemma verdict_at_repaired d key path :
  verdict_at d key path = Repaired ->
  exists f l0 l1 rest,
    d !! key = Some f /\ Py.readlines (text f) = l0 :: l1 :: rest
    /\ needs_swap l0 l1 = true.
Proof.
  unfold verdict_at. destruct (d !! key) as [f|]; [|done].
  destruct (on_read f); [done|].
  destruct (Py.readlines (text f)) as [|l0 [|l1 rest]] eqn:Hl; [done..|].
  destruct (needs_swap l0 l1) eqn:Hn; [|done]. intros _. by exists f, l0, l1, rest.
Qed.

Variable sep : string.
Variable normcase : string -> string.

Local Abbreviation run_on := (fix_use_client_directive_on env sep normcase).

(** When the tree is nested deeper than [glob] can walk, the run is over
    before it has begun: the error leaves it and the machine is as it
    was. *)
Lemma run_on_too_deep s :
  max_depth env < visible_depth (iterdir env (cwd s)) ->
  run_on s = (s, inl recursion_error).
Proof.
  intros Hdeep. unfold fix_use_client_directive_on, bind, glob_on.
  rewrite decide_False by lia. done.
Qed.

(** Otherwise the run is the loop over the listing, followed by the
    summary if the loop runs to its end. *)
Lemma run_on_unfold s :
  visible_depth (iterdir env (cwd s)) <= max_depth env ->
  run_on s
  = (let* count := for_files_on env (listing_on env sep normcase s) 0 in
     print_on env (summary count)) s.
Proof.
  intros Hdepth. unfold fix_use_client_directive_on, bind, glob_on.
  rewrite decide_True by done. done.
Qed.

(** With a console that accepts every record and a tree that [glob] can
    walk, no exception leaves the run. *)
Lemma run_on_sound s :
  console_sound env ->
  visible_depth (iterdir env (cwd s)) <= max_depth env ->
  exists s' count,
    for_files_on env (listing_on env sep normcase s) 0 s = (s', inr count)
    /\ run_on s = (add_stdout (summary count) s', inr tt).
Proof.
  intros Hc Hdepth.
  destruct (for_files_on_counts (listing_on env sep normcase s) 0 s Hc)
    as (s' & out & Hloop & _).
  exists s', (0 + fixed_lines out). split; [done|].
  rewrite run_on_unfold by done. unfold bind. rewrite Hloop.
  unfold print_on. by rewrite Hc.
Qed.

(** Whether or not the run is cut short, the files it can have touched are
    those that a listed path leads to. *)
Lemma run_on_other s key :
  key ∉ target env <$> listing_on env sep normcase s ->
  disk (run_on s).1 !! key = disk s !! key.
Proof.
  intros Hkey.
  destruct (decide (visible_depth (iterdir env (cwd s)) <= max_depth env)) as [Hd|Hd].
  2:{ rewrite run_on_too_deep by lia. done. }
  rewrite run_on_unfold by done. unfold bind.
  pose proof (for_files_on_other _ key 0 s Hkey) as Hloop.
  destruct (for_files_on env _ 0 s) as [s1 [e|c1]]; [done|].
  unfold print_on. by destruct (console env _).
Qed.

Lemma run_on_dom s : dom (disk (run_on s).1) = dom (disk s).
Proof.
  destruct (decide (visible_depth (iterdir env (cwd s)) <= max_depth env)) as [Hd|Hd].
  2:{ rewrite run_on_too_deep by lia. done. }
  rewrite run_on_unfold by done. unfold bind.
  destruct (for_files_on_state (listing_on env sep normcase s) 0 s) as (_ & _ & Hdom & _).
  destruct (for_files_on env _ 0 s) as [s1 [e|c1]]; [done|].
  unfold print_on. by destruct (console env _).
Qed.

End OnFacts.

(** * The tree as the listing sees it *)

Section ShownFacts.

Variable can_list : list string -> bool.

(** Induction on a directory entry with the entries below it. *)
Lemma node_ind_nested (P : node -> Prop) :
  (forall name, P (File name)) ->
  (forall d es, Forall P es -> P (Dir d es)) ->
  forall n, P n.
Proof.
  intros HF HD. fix IH 1. intros [name|d es]; [apply HF|].
  apply HD. induction es as [|n es IHes]; constructor; [apply IH|apply IHes].
Qed.

(** Where every directory can be listed, the listing sees the tree as it
    is. *)
Lemma shown_all above n :
  (forall ds, can_list ds = true) -> shown can_list above n = n.
Proof.
  intros Hall. revert above.
  induction n as [name|d es IH] using node_ind_nested; intros above; [done|].
  cbn [shown]. rewrite Hall. f_equal.
  induction IH as [|n es Hn _ IHes]; [done|]. cbn [List.map]. by rewrite Hn, IHes.
Qed.

(** A directory that is reached through directories that can be listed is
    there for the listing too. *)
Lemma shown_dir_at above es ds es' :
  dir_at es ds es' ->
  (forall pre, pre <> [] -> pre `prefix_of` ds -> can_list (above ++ pre) = true) ->
  dir_at (List.map (shown can_list above) es) ds
         (List.map (shown can_list (above ++ ds)) es').
Proof.
  intros Hat. revert above.
  induction Hat as [es|es d es1 ds es' Hin Hat IH]; intros above Hlist.
  { rewrite app_nil_r. constructor. }
  apply (dir_below _ d (List.map (shown can_list (above ++ [d])) es1)).
  - apply (List.in_map (shown can_list above)) in Hin. cbn [shown] in Hin.
    rewrite (Hlist [d]) in Hin; [done..|]. by exists ds.
  - replace (above ++ d :: ds) with ((above ++ [d]) ++ ds) by by rewrite <- app_assoc.
    apply IH. intros pre Hne Hpre. rewrite <- app_assoc. cbn [app].
    apply Hlist; [done|]. by apply prefix_cons.
Qed.

End ShownFacts.

Section OnGlobFacts.

Variable env : environment.
Variable sep : string.
Variable normcase : string -> string.

Lemma iterdir_all es : all_listable env -> iterdir env es = es.
Proof.
  intros Hall. unfold iterdir. rewrite Hall.
  induction es as [|n es IH]; [done|]. cbn [List.map].
  by rewrite shown_all, IH.
Qed.

(** A file in a directory that is reached through directories that can be
    listed, the current one included, is there for the listing. *)
Lemma iterdir_file_at es ds name :
  file_at es ds name ->
  (forall pre, pre `prefix_of` ds -> listable env pre = true) ->
  file_at (iterdir env es) ds name.
Proof.
  intros (es' & Hat & Hin) Hlist. unfold iterdir.
  rewrite (Hlist []) by by exists ds.
  exists (List.map (shown (listable env) ([] ++ ds)) es'). split.
  - apply shown_dir_at; [done|]. intros pre _ Hpre. by apply Hlist.
  - by apply (List.in_map (shown (listable env) ([] ++ ds))) in Hin.
Qed.

(** On a machine where the console accepts every record and every path is
    a file of its own, the loop is the loop of the machine where nothing
    gives way. *)
Lemma for_files_on_ideal files count s :
  console_sound env -> link_free env ->
  for_files_on env files count s = for_files files count s.
Proof.
  intros Hc Hl. revert count s. induction files as [|file files IH]; intros count s; [done|].
  cbn [for_files_on for_files]. unfold bind.
  rewrite iteration_on_spec, concluded_sound, iteration_spec by done.
  rewrite Hl. apply IH.
Qed.

(** If moreover every directory can be listed and the tree is one that
    [glob] can walk, so is the run. *)
Lemma run_on_ideal s :
  console_sound env -> link_free env -> all_listable env ->
  visible_depth (cwd s) <= max_depth env ->
  fix_use_client_directive_on env sep normcase s
  = fix_use_client_directive sep normcase s.
Proof.
  intros Hc Hl Hall Hdepth.
  unfold fix_use_client_directive_on, fix_use_client_directive, bind, glob_on, glob.
  rewrite iterdir_all by done. rewrite decide_True by done. cbn [ret].
  rewrite for_files_on_ideal by done.
  destruct (for_files _ 0 s) as [s1 [e|c1]]; [done|].
  unfold print_on. by rewrite Hc.
Qed.

End OnGlobFacts.

(** * The scenarios of the specification, run on the model *)

Example readlines_keeps_terminators :
  Py.readlines ("a" +:+ nl +:+ "bc" +:+ nl +:+ "d") = ["a" +:+ nl; "bc" +:+ nl; "d"]
  /\ Py.readlines "" = []
  /\ Py.readlines nl = [nl].
Proof. repeat split; reflexivity. Qed.

Example strip_both_ends :
  Py.strip ("  " +:+ use_client +:+ "; " +:+ nl) = use_client +:+ ";".
Proof. reflexivity. Qed.

Example listing_skips_dot_names :
  glob_js "/" id
    [File "a.js"; File "b.ts"; File ".c.js";
     Dir "app" [File "d.js"; Dir "deep" [File "e.js"]];
     Dir ".next" [File "f.js"]]
  = ["a.js"; "app/d.js"; "app/deep/e.js"].
Proof. reflexivity. Qed.

(** Scenario 1: directive first, nothing to do. *)
Example scenario_ordered :
  let s' := (fix_use_client_directive "/" id (one_page text_ordered)).1 in
  disk s' = disk (one_page text_ordered)
  /\ stdout s' = [summary 0].
Proof. cbv zeta. split; by vm_compute. Qed.

(** Scenario 2: the two lines are exchanged and the file is counted. *)
Example scenario_misordered :
  let s' := (fix_use_client_directive "/" id (one_page text_misordered)).1 in
  disk s' !! "page.js" = Some (plain text_ordered)
  /\ stdout s' = ["Fixed: page.js"; summary 1].
Proof. cbv zeta. split; by vm_compute. Qed.

(** Scenarios 3 and 4: an empty file and a file of one line are left alone. *)
Example scenario_short_files :
  (let s' := (fix_use_client_directive "/" id (one_page "")).1 in
   disk s' = disk (one_page "") /\ stdout s' = [summary 0])
  /\ (let s' := (fix_use_client_directive "/" id (one_page line_dynamic)).1 in
      disk s' = disk (one_page line_dynamic) /\ stdout s' = [summary 0]).
Proof. cbv zeta. repeat split; by vm_compute. Qed.

(** Scenario 5: three matching files among five. *)
Example scenario_five_files :
  stdout (fix_use_client_directive "/" id five_files).1
  = ["Fixed: a.js"; "Fixed: app/c.js"; "Fixed: app/deep/e.js"; summary 3].
Proof. by vm_compute. Qed.

(** * The claims *)

(** C1 asks that a modified file differ from the old one by the exchange
    of its first two lines alone, with the line count unchanged. The script
    breaks this on a file of two lines in the wrong order whose second line
    has no terminator: it is rewritten as ONE line, the directive run into
    the export line, and reported as fixed. (With a terminated second line
    the exchange is exact: [repair_swaps_terminated_lines].) *)
Theorem unterminated_second_line_is_merged :
  let s' := (fix_use_client_directive "/" id (one_page text_unterminated)).1 in
  Py.readlines text_unterminated = [line_dynamic; use_client]
  /\ text <$> disk s' !! "page.js" = Some (use_client +:+ line_dynamic)
  /\ Py.readlines (use_client +:+ line_dynamic) = [use_client +:+ line_dynamic]
  /\ printed (one_page text_unterminated) s'
     = ["Fixed: page.js"; String Py.newline "Total files fixed: 1"].
Proof. cbv zeta. repeat split; by vm_compute. Qed.

(** C2 does not hold as the specification words it. A file whose first two
    lines are one and the same line carrying both markers is rewritten with
    the text it already had: the summary says 1 and no file has changed. *)
Lemma counter_counts_a_rewrite_without_change :
  ~ counter_counts_changes_on sound_env "/" id (one_page text_twins).
Proof.
  unfold counter_counts_changes_on. intros H. vm_compute in H. discriminate H.
Qed.

(** Nor does it hold when two listed paths lead to one file: the file is
    counted once for each, and here it is swapped and swapped back, so the
    summary says 2 and no file has changed. *)
Lemma counter_counts_a_file_under_each_name :
  ~ counter_counts_changes_on linked_env "/" id two_names.
Proof.
  unfold counter_counts_changes_on. intros H. vm_compute in H. discriminate H.
Qed.

(** C2, amended. The count in the summary equals the number of files whose
    content on disk has changed during the run, provided that every
    [print] succeeds, that the tree is one [glob] can walk, that no two
    listed paths lead to the same file, that no file the run rewrites has
    two identical first lines, and that no write fails after the file has
    been truncated. *)
Theorem counter_equals_changed_files (env : environment) (sep : string)
    (normcase : string -> string) (s : state) :
  console_sound env ->
  visible_depth (iterdir env (cwd s)) <= max_depth env ->
  NoDup (target env <$> listing_on env sep normcase s) ->
  (forall path f l0 l1 rest,
     path ∈ listing_on env sep normcase s ->
     verdict_at (disk s) (target env path) path = Repaired ->
     disk s !! target env path = Some f ->
     Py.readlines (text f) = l0 :: l1 :: rest ->
     l0 <> l1) ->
  (forall path e kept,
     path ∈ listing_on env sep normcase s ->
     verdict_at (disk s) (target env path) path <> Damaged e kept) ->
  counter_counts_changes_on env sep normcase s.
Proof.
  intros Hc Hdepth Hnd Hdiff Hwrite. unfold counter_counts_changes_on.
  destruct (for_files_on_distinct_from env (disk s) _ 0 s Hc Hnd) as (s1 & Hloop & Hin & Hout);
    [done|].
  destruct (run_on_sound env sep normcase s Hc Hdepth) as (s1' & count & Hloop' & ->).
  rewrite Hloop in Hloop'. injection Hloop' as <- <-.
  cbn [fst stdout disk add_stdout]. rewrite last_snoc. do 2 f_equal. cbn.
  set (files := listing_on env sep normcase s) in *.
  assert (NoDup (target env <$> repaired_on env (disk s) files)) as Hnd'.
  { apply (sublist_NoDup _ _ Hnd). apply fmap_sublist, sublist_filter. }
  rewrite <- (length_fmap (target env)).
  rewrite <- (size_list_to_set (C:=gset string)) by done.
  f_equal. apply set_eq. intros key. unfold changed_files.
  rewrite elem_of_filter, elem_of_list_to_set, list_elem_of_fmap. split.
  - intros (p & -> & Hp). apply list_elem_of_filter in Hp as [Hv Hfiles].
    destruct (verdict_at_repaired _ _ _ Hv) as (f & l0 & l1 & rest & Hf & Hl & Hn).
    split; [|apply elem_of_union_l, elem_of_dom; eauto].
    rewrite (Hin _ Hfiles), Hv, Hf. cbn. intros [= Heq]. symmetry in Heq. revert Heq.
    apply (rewritten_differs _ _ _ _ Hl). by apply (Hdiff p f l0 l1 rest).
  - intros [Hne _].
    destruct (decide (key ∈ target env <$> files)) as [Hfiles|Hfiles].
    2:{ by rewrite (Hout _ Hfiles) in Hne. }
    apply list_elem_of_fmap in Hfiles as (p & -> & Hfiles).
    exists p. split; [done|]. apply list_elem_of_filter. split; [|done].
    rewrite (Hin _ Hfiles) in Hne.
    destruct (verdict_at (disk s) (target env p) p) as [| |e|e kept] eqn:Hv; [done|..].
    + destruct Hne. by destruct (disk s !! target env p).
    + destruct Hne. by destruct (disk s !! target env p).
    + by destruct (Hwrite p e kept).
Qed.

Lemma counter_equals_changed_files_witness :
  counter_counts_changes_on sound_env "/" id five_files.
Proof.
  apply (counter_equals_changed_files sound_env "/" id five_files).
  - intros line. reflexivity.
  - vm_compute. lia.
  - apply (bool_decide_unpack (NoDup _)). vm_compute. exact I.
  - intros path f l0 l1 rest Hpath Hv Hf Hl.
    vm_compute in Hpath.
    repeat (apply elem_of_cons in Hpath as [->|Hpath]);
      [..|by apply elem_of_nil in Hpath];
      vm_compute in Hf; injection Hf as <-;
      vm_compute in Hl; first [discriminate Hl | injection Hl as <- <- <-]; done.
  - intros path e kept Hpath.
    vm_compute in Hpath.
    repeat (apply elem_of_cons in Hpath as [->|Hpath]);
      [..|by apply elem_of_nil in Hpath];
      vm_compute; discriminate.
Defined.

(** C3. A file that is skipped, because it has fewer than two lines or
    because its stripped line 0 lacks [export const dynamic] or its stripped
    line 1 lacks ["use client"], is on disk after the run exactly what it
    was before. *)
Theorem skipped_file_unchanged (sep : string) (normcase : string -> string)
    (s : state) (path : string) (f : file) :
  disk s !! path = Some f ->
  skip_condition (Py.readlines (text f)) ->
  disk (fix_use_client_directive sep normcase s).1 !! path = Some f.
Proof.
  intros Hf Hskip.
  assert (after_pass (verdict_of (disk s) path) = id) as Hv.
  { unfold verdict_of, needs_swap. rewrite Hf.
    destruct (on_read f); [done|].
    destruct Hskip as [Hlen|(l0 & l1 & rest & -> & Hno)].
    - destruct (Py.readlines (text f)) as [|? [|? ?]]; [done..|]. cbn in Hlen. lia.
    - destruct Hno as [-> | ->]; [done|]. by rewrite andb_false_r. }
  destruct (run_unfold sep normcase s) as (s' & count & Hloop & ->).
  cbn. rewrite <- Hf.
  replace s' with (for_files (glob_js sep normcase (cwd s)) 0 s).1 by by rewrite Hloop.
  by apply for_files_keeps.
Qed.

Lemma skipped_file_unchanged_witness :
  disk (fix_use_client_directive "/" id (one_page text_ordered)).1 !! "page.js"
  = Some (plain text_ordered).
Proof.
  apply (skipped_file_unchanged "/" id (one_page text_ordered) "page.js" (plain text_ordered)).
  - reflexivity.
  - right. exists line_client, line_dynamic, [line_other]. split; [reflexivity|].
    left. reflexivity.
Defined.

(** C4 does not hold as the specification words it. A file whose name ends
    in [.js] but starts with a dot is not in the listing, so the run never
    opens it. *)
Lemma dotfile_is_not_examined : ~ examines_every_js_on sound_env "/" id with_dotfile.
Proof.
  intros H. specialize (H [] ".eslintrc.js").
  assert (file_at (cwd with_dotfile) [] ".eslintrc.js") as Hat.
  { exists (cwd with_dotfile). split; [constructor|]. right. by left. }
  specialize (H Hat eq_refl). vm_compute in H. by destruct H as [[=]|[]].
Qed.

(** Nor is the depth arbitrary: on a tree nested deeper than [glob] can
    walk the listing raises, and no file at all is opened. *)
Lemma deep_tree_is_not_examined : ~ examines_every_js_on shallow_env "/" id five_files.
Proof.
  intros H. specialize (H [] "a.js").
  assert (file_at (cwd five_files) [] "a.js") as Hat.
  { exists (cwd five_files). split; [constructor|]. by left. }
  specialize (H Hat eq_refl). vm_compute in H. destruct H.
Qed.

(** And what lies in a directory that cannot be listed is passed over in
    silence. *)
Lemma closed_directory_is_not_examined :
  ~ examines_every_js_on closed_app_env "/" id five_files.
Proof.
  intros H. specialize (H ["app"] "c.js").
  assert (file_at (cwd five_files) ["app"] "c.js") as Hat.
  { exists [File "c.js"; File "d.js"; Dir "deep" [File "e.js"]]. split; [|by left].
    apply (dir_below _ "app" [File "c.js"; File "d.js"; Dir "deep" [File "e.js"]]).
    { right. right. by left. }
    constructor. }
  specialize (H Hat eq_refl). vm_compute in H.
  by destruct H as [[=]|[[=]|[]]].
Qed.

(** C4, amended. The run opens every file whose name ends in [.js] (after
    [os.path.normcase]) and does not start with a dot, in the root
    directory and below it, provided that no directory on the way down has
    a name that starts with a dot, that every directory on the way, the
    root included, can be listed, that the tree is not nested deeper than
    [glob] can walk, and that every [print] succeeds. The order is that
    of the listing. *)
Theorem visible_js_is_examined (env : environment) (sep : string)
    (normcase : string -> string) (s : state) (ds : list string) (name : string) :
  console_sound env ->
  visible_depth (iterdir env (cwd s)) <= max_depth env ->
  file_at (cwd s) ds name ->
  (forall above, above `prefix_of` ds -> listable env above = true) ->
  Forall (fun d => ishidden d = false) ds ->
  ishidden name = false ->
  Py.endswith (normcase name) ".js" = true ->
  In (os_path_join sep (dir_path sep ds) name)
     (reads (fix_use_client_directive_on env sep normcase s).1).
Proof.
  intros Hc Hdepth Hat Hlist Hvis Hname Hjs.
  destruct (run_on_sound env sep normcase s Hc Hdepth) as (s' & count & Hloop & ->).
  cbn [fst reads add_stdout].
  rewrite (for_files_on_reads _ _ _ _ _ _ Hloop). apply in_or_app. right.
  apply glob_js_file; [|done..]. by apply iterdir_file_at.
Qed.

Lemma visible_js_is_examined_witness :
  In "app/deep/e.js" (reads (fix_use_client_directive_on sound_env "/" id five_files).1).
Proof.
  apply (visible_js_is_examined sound_env "/" id five_files ["app"; "deep"] "e.js").
  - intros line. reflexivity.
  - vm_compute. lia.
  - exists [File "e.js"]. split; [|by left].
    apply (dir_below _ "app" [File "c.js"; File "d.js"; Dir "deep" [File "e.js"]]).
    { right. right. by left. }
    apply (dir_below _ "deep" [File "e.js"]).
    { right. right. by left. }
    constructor.
  - intros above _. reflexivity.
  - repeat constructor.
  - reflexivity.
  - reflexivity.
Defined.

(** C5 does not hold as the specification words it. The handler's own
    [print] stands outside every [try]. On a console whose encoding is
    ASCII, the record for a file that cannot be decoded and whose name
    holds an accented letter cannot be printed: [print] raises
    [UnicodeEncodeError] in the handler and that exception ends the run.
    The file after it is never opened and no summary is printed. *)
Lemma handler_print_failure_ends_the_run :
  ~ file_errors_are_isolated ascii_env "/" id cafe_then_good.
Proof.
  intros H.
  destruct (H [] cafe_js ["c.js"] cafe_then_good (add_read cafe_js cafe_then_good)
              0 cannot_decode) as (s2 & count2 & _ & Hrun); [reflexivity..|].
  apply (f_equal snd) in Hrun. vm_compute in Hrun. discriminate Hrun.
Qed.

(** C5, amended. Provided every [print] succeeds, an exception raised
    while one file is processed, be it on reading, decoding or writing, is
    caught and logged as [Error processing <path>: <message>]; the files
    after it are processed as usual, starting from the counter as it
    stood, so the failing file is not counted: the final counter is the
    counter before the failing file plus the [Fixed:] records printed
    after it, and the run ends normally with its summary. *)
Theorem file_error_is_logged_and_run_continues (env : environment) (sep : string)
    (normcase : string -> string) (s : state)
    (before after : list string) (file : string)
    (s1 s1' : state) (count1 : nat) (e : exn) :
  console_sound env ->
  glob_on env sep normcase s = (s, inr (before ++ file :: after)) ->
  for_files_on env before 0 s = (s1, inr count1) ->
  try_body_on env file count1 s1 = (s1', inl e) ->
  exists s2 out,
    for_files_on env after count1
      (add_stdout ("Error processing " +:+ file +:+ ": " +:+ str_exn e) s1')
    = (s2, inr (count1 + fixed_lines out))
    /\ stdout s2
       = stdout s1' ++ ("Error processing " +:+ file +:+ ": " +:+ str_exn e) :: out
    /\ fix_use_client_directive_on env sep normcase s
       = (add_stdout (summary (count1 + fixed_lines out)) s2, inr tt).
Proof.
  intros Hc Hls Hbefore Hraise.
  destruct (for_files_on_counts env after count1
              (add_stdout ("Error processing " +:+ file +:+ ": " +:+ str_exn e) s1') Hc)
    as (s2 & out & Hafter & Hout).
  exists s2, out. split; [done|]. split.
  { rewrite Hout. cbn [stdout add_stdout]. by rewrite <- app_assoc. }
  unfold fix_use_client_directive_on, bind. rewrite Hls.
  rewrite (for_files_on_app _ _ _ _ _ _ _ Hbefore).
  cbn [for_files_on]. unfold bind, iteration_on, try_except. rewrite Hraise.
  unfold bind, print_on. rewrite Hc. unfold print, ret, error_line. rewrite Hafter.
  by rewrite Hc.
Qed.

Lemma file_error_is_logged_and_run_continues_witness :
  exists s2 out,
    for_files_on sound_env ["locked.js"; "c.js"] 1
      (add_stdout
         "Error processing bad.js: 'utf-8' codec can't decode byte 0xff in position 0: invalid start byte"
         (add_read "bad.js" (for_files_on sound_env ["a.js"] 0 with_failures).1))
    = (s2, inr (1 + fixed_lines out))
    /\ stdout s2
       = stdout (add_read "bad.js" (for_files_on sound_env ["a.js"] 0 with_failures).1)
         ++ "Error processing bad.js: 'utf-8' codec can't decode byte 0xff in position 0: invalid start byte"
            :: out
    /\ fix_use_client_directive_on sound_env "/" id with_failures
       = (add_stdout (summary (1 + fixed_lines out)) s2, inr tt).
Proof.
  apply (file_error_is_logged_and_run_continues sound_env "/" id with_failures
           ["a.js"] ["locked.js"; "c.js"] "bad.js"
           (for_files_on sound_env ["a.js"] 0 with_failures).1
           (add_read "bad.js" (for_files_on sound_env ["a.js"] 0 with_failures).1)
           1 cannot_decode).
  - intros line. reflexivity.
  - reflexivity.
  - reflexivity.
  - reflexivity.
Defined.

(** C6. When the root directory is missing or cannot be entered, the run
    aborts at once: the error leaves [main], no file has been read or
    written, and nothing, the summary included, has been printed. *)
Theorem missing_root_aborts (sep : string) (normcase : string -> string)
    (s : state) (e : exn) :
  mount s root_dir = inl e ->
  main sep normcase s = (s, inl e).
Proof. intros He. unfold main, bind, chdir. by rewrite He. Qed.

Lemma missing_root_aborts_witness :
  main "/" id machine_without_root = (machine_without_root, inl (no_such_file root_dir)).
Proof. apply (missing_root_aborts "/" id machine_without_root). reflexivity. Defined.





(** C9. A second pass over a file changes nothing, provided that after the
    first pass the new stripped line 0 lacks [export const dynamic] or the
    new stripped line 1 lacks ["use client"]. The proviso is needed: when
    each of the first two lines holds both markers, the second pass swaps
    them back. The first part holds whether or not the first pass raised. *)
Theorem iteration_idempotent_under_proviso :
  (forall (s : state) (file : string) (count count' : nat),
     (forall f l0 l1 rest,
        disk (iteration file count s).1 !! file = Some f ->
        Py.readlines (text f) = l0 :: l1 :: rest ->
        Py.contains export_const_dynamic (Py.strip l0) = false
        \/ Py.contains use_client (Py.strip l1) = false) ->
     disk (iteration file count' (iteration file count s).1).1
     = disk (iteration file count s).1)
  /\ (let once := (iteration "page.js" 0 (one_page text_two_way)).1 in
      let twice := (iteration "page.js" 1 once).1 in
      disk twice = disk (one_page text_two_way) /\ disk twice <> disk once).
Proof.
  split.
  - intros s file count count' Hproviso.
    apply iteration_disk_kept. unfold verdict_of, needs_swap.
    destruct (disk (iteration file count s).1 !! file) as [f|] eqn:Hf; [|done].
    destruct (on_read f); [done|].
    destruct (Py.readlines (text f)) as [|l0 [|l1 rest]] eqn:Hl; [done..|].
    destruct (Hproviso f l0 l1 rest eq_refl Hl) as [-> | ->]; [done|].
    by rewrite andb_false_r.
  - cbv zeta. split.
    + by vm_compute.
    + intros Heq. apply (f_equal (fun d => text <$> d !! "page.js")) in Heq.
      vm_compute in Heq. discriminate Heq.
Qed.

Lemma iteration_idempotent_under_proviso_witness :
  disk (iteration "page.js" 1 (iteration "page.js" 0 (one_page text_misordered)).1).1
  = disk (iteration "page.js" 0 (one_page text_misordered)).1.
Proof.
  apply (proj1 iteration_idempotent_under_proviso (one_page text_misordered) "page.js" 0 1).
  intros f l0 l1 rest Hf Hl.
  vm_compute in Hf. injection Hf as <-.
  vm_compute in Hl. injection Hl as <- <- <-.
  left. reflexivity.
Defined.

(** C10. The test on the first two lines gives the same answer on the raw
    lines as on the stripped ones: stripped line 0 holds
    [export const dynamic] and stripped line 1 holds ["use client"] exactly
    when the raw lines do, for every pair of lines. *)
Theorem needs_swap_ignores_strip (l0 l1 : string) :
  (Py.contains export_const_dynamic (Py.strip l0) = true
   /\ Py.contains use_client (Py.strip l1) = true)
  <-> (Py.contains export_const_dynamic l0 = true /\ Py.contains use_client l1 = true).
Proof.
  rewrite (contains_strip export_const_dynamic l0) by reflexivity.
  by rewrite (contains_strip use_client l1) by reflexivity.
Qed.

(** * Further facts about the loop and the listing *)

Section MoreLoopFacts.

Implicit Types (s : state) (d : gmap string file) (file path : string)
  (count : nat) (files : list string) (v : verdict).


End MoreLoopFacts.

Section MoreGlobFacts.

Variable sep : string.
Variable normcase : string -> string.

(** What the recursive listing yields for an entry is a visible directory
    and a chain of visible directories below it, under the path assembled
    from their names. *)
Lemma rlistdir_entry_sound n q es' :
  In (q, es') (rlistdir_entry sep n) ->
  exists d es1 ds,
    n = Dir d es1 /\ dir_at es1 ds es'
    /\ Forall (fun x => ishidden x = false) (d :: ds)
    /\ q = dir_path sep (d :: ds).
Proof.
  revert q es'. induction n as [name|d es1 IH] using node_ind_nested; intros q es'; [done|].
  cbn [rlistdir_entry]. destruct (ishidden d) eqn:Hd; [done|].
  intros [[= <- <-]|Hin].
  - exists d, es1, []. repeat split; [constructor|by repeat constructor|].
    cbn. by rewrite glob_join_empty.
  - apply List.in_map_iff in Hin as ([q' es''] & [= <- <-] & Hin).
    apply List.in_flat_map in Hin as (n' & Hn' & Hin).
    rewrite List.Forall_forall in IH.
    destruct (IH n' Hn' q' es'' Hin) as (d' & es2 & ds & -> & Hat & Hvis & ->).
    exists d, es1, (d' :: ds). repeat split.
    + by apply (dir_below _ d' es2).
    + by constructor.
Qed.

Lemma glob1_sound es name :
  In name (glob1 normcase es) ->
  exists n,
    In n es /\ node_name n = name /\ ishidden name = false
    /\ Py.endswith (normcase name) ".js" = true.
Proof.
  unfold glob1, fnmatch_filter_js.
  intros [[[n [<- Hin]]%List.in_map_iff Hvis]%List.filter_In Hjs]%List.filter_In.
  exists n. repeat split; [done|by apply negb_true_iff|done].
Qed.

End MoreGlobFacts.

Section Stability.

Implicit Types (d : gmap string file) (path : string).


End Stability.

(** * Further properties of the script *)

(** X1. When the root directory can be entered, the tree below it is one
    that [glob] can walk and every [print] succeeds, [main] ends normally
    whatever the files are: no exception leaves it, the working directory
    is the root, and the last record printed is the summary. *)
Theorem main_completes_when_root_exists (env : environment) (sep : string)
    (normcase : string -> string) (s : state) (tree : list node) :
  mount s root_dir = inr tree ->
  console_sound env ->
  visible_depth (iterdir env tree) <= max_depth env ->
  exists s' count,
    main_on env sep normcase s = (s', inr tt)
    /\ cwd s' = tree
    /\ last (stdout s') = Some (summary count).
Proof.
  intros Hroot Hc Hdepth. unfold main_on, bind, chdir. rewrite Hroot. cbn [ret].
  destruct (run_on_sound env sep normcase (set_cwd tree s) Hc Hdepth)
    as (s1 & count & Hloop & ->).
  exists (add_stdout (summary count) s1), count. repeat split.
  - destruct (for_files_on_state env (listing_on env sep normcase (set_cwd tree s)) 0
                (set_cwd tree s)) as (_ & Hcwd & _).
    rewrite Hloop in Hcwd. done.
  - cbn. by rewrite last_snoc.
Qed.

Lemma main_completes_when_root_exists_witness :
  exists s' count,
    main_on sound_env "/" id with_failures = (s', inr tt)
    /\ cwd s' = [File "a.js"; File "bad.js"; File "locked.js"; File "c.js"]
    /\ last (stdout s') = Some (summary count).
Proof.
  apply (main_completes_when_root_exists sound_env "/" id with_failures).
  - reflexivity.
  - intros line. reflexivity.
  - vm_compute. lia.
Defined.


(** X3. A file that no listed path leads to, such as a file with another
    extension, a dot-file or anything below a dot-directory that is not
    linked to from a listed path, is after the run the file it was before,
    whether the run ends normally or is cut short by an exception. *)
Theorem unlisted_file_untouched (env : environment) (sep : string)
    (normcase : string -> string) (s : state) (key : string) :
  key ∉ target env <$> listing_on env sep normcase s ->
  disk (fix_use_client_directive_on env sep normcase s).1 !! key = disk s !! key.
Proof. apply run_on_other. Qed.

Lemma unlisted_file_untouched_witness :
  disk (fix_use_client_directive_on deaf_env "/" id with_dotfile).1 !! ".eslintrc.js"
  = disk with_dotfile !! ".eslintrc.js".
Proof.
  apply (unlisted_file_untouched deaf_env "/" id with_dotfile ".eslintrc.js").
  apply (bool_decide_unpack (_ ∉ _)). vm_compute. exact I.
Defined.

(** X4. The run neither creates nor removes a file, whether it ends
    normally or is cut short by an exception. *)
Theorem run_keeps_the_set_of_files (env : environment) (sep : string)
    (normcase : string -> string) (s : state) :
  dom (disk (fix_use_client_directive_on env sep normcase s).1) = dom (disk s).
Proof. apply run_on_dom. Qed.

(** X5. A file that cannot be read or decoded, or cannot be opened for
    writing, is after the run exactly the file it was before. *)
Theorem unusable_file_untouched (sep : string) (normcase : string -> string)
    (s : state) (path : string) (f : file) :
  disk s !! path = Some f ->
  (is_Some (on_read f) \/ exists e, on_write f = Some (OpenFails e)) ->
  disk (fix_use_client_directive sep normcase s).1 !! path = Some f.
Proof.
  intros Hf Hfault.
  assert (after_pass (verdict_of (disk s) path) = id) as Hv.
  { unfold verdict_of. rewrite Hf.
    destruct Hfault as [[e ->]|[e Hw]]; [done|].
    destruct (on_read f); [done|].
    destruct (Py.readlines (text f)) as [|l0 [|l1 rest]]; [done..|].
    destruct (needs_swap l0 l1); [|done]. by rewrite Hw. }
  destruct (run_unfold sep normcase s) as (s' & count & Hloop & ->).
  cbn. rewrite <- Hf.
  replace s' with (for_files (glob_js sep normcase (cwd s)) 0 s).1 by by rewrite Hloop.
  by apply for_files_keeps.
Qed.

Lemma unusable_file_untouched_witness :
  disk (fix_use_client_directive "/" id with_failures).1 !! "locked.js"
  = Some (mkfile text_misordered None (Some (OpenFails read_only))).
Proof.
  apply (unusable_file_untouched "/" id with_failures "locked.js").
  - reflexivity.
  - right. by exists read_only.
Defined.

(** X6. The text of a repaired file is the old text with its first two
    lines exchanged: whatever follows them is the same text in the same
    place, and no character is added or lost. *)
Theorem repaired_text_exchanges_first_two_lines (sep : string)
    (normcase : string -> string) (s : state) (path : string) (f : file)
    (l0 l1 : string) (rest : list string) :
  NoDup (glob_js sep normcase (cwd s)) ->
  path ∈ glob_js sep normcase (cwd s) ->
  disk s !! path = Some f ->
  on_read f = None -> on_write f = None ->
  Py.readlines (text f) = l0 :: l1 :: rest ->
  needs_swap l0 l1 = true ->
  exists f',
    disk (fix_use_client_directive sep normcase s).1 !! path = Some f'
    /\ text f = l0 +:+ l1 +:+ Py.writelines rest
    /\ text f' = l1 +:+ l0 +:+ Py.writelines rest
    /\ String.length (text f') = String.length (text f).
Proof.
  intros Hnd Hpath Hf Hr Hw Hl Hn. eexists. split.
  { by apply (run_repairs sep normcase s path f l0 l1 rest). }
  assert (text f = l0 +:+ l1 +:+ Py.writelines rest) as Htext.
  { by rewrite <- (writelines_readlines (text f)), Hl. }
  split; [done|]. split; [done|].
  cbn [text set_text Py.writelines]. rewrite Htext, !length_append. lia.
Qed.

Lemma repaired_text_exchanges_first_two_lines_witness :
  exists f',
    disk (fix_use_client_directive "/" id (one_page text_misordered)).1 !! "page.js"
    = Some f'
    /\ text (plain text_misordered) = line_dynamic +:+ line_client +:+ Py.writelines [line_other]
    /\ text f' = line_client +:+ line_dynamic +:+ Py.writelines [line_other]
    /\ String.length (text f') = String.length (text (plain text_misordered)).
Proof.
  apply (repaired_text_exchanges_first_two_lines "/" id (one_page text_misordered) "page.js").
  - apply (bool_decide_unpack (NoDup _)). vm_compute. exact I.
  - apply (bool_decide_unpack (_ ∈ _)). vm_compute. exact I.
  - reflexivity.
  - reflexivity.
  - reflexivity.
  - reflexivity.
  - reflexivity.
Defined.

(** X7. When the second line of a repaired file ends in a newline, the
    file reads back as the same lines with the first two exchanged: the
    lines after them and the number of lines are unchanged. *)
Theorem repaired_file_rereads_swapped (sep : string)
    (normcase : string -> string) (s : state) (path : string) (f : file)
    (l0 l1 : string) (rest : list string) :
  NoDup (glob_js sep normcase (cwd s)) ->
  path ∈ glob_js sep normcase (cwd s) ->
  disk s !! path = Some f ->
  on_read f = None -> on_write f = None ->
  Py.readlines (text f) = l0 :: l1 :: rest ->
  needs_swap l0 l1 = true ->
  terminated l1 = true ->
  exists f',
    disk (fix_use_client_directive sep normcase s).1 !! path = Some f'
    /\ Py.readlines (text f') = l1 :: l0 :: rest
    /\ length (Py.readlines (text f')) = length (Py.readlines (text f)).
Proof.
  intros Hnd Hpath Hf Hr Hw Hl Hn Hl1.
  destruct (repair_swaps_terminated_lines sep normcase s path f l0 l1 rest)
    as (f' & Hf' & Hl'); try done.
  exists f'. by rewrite Hl', Hl.
Qed.

Lemma repaired_file_rereads_swapped_witness :
  exists f',
    disk (fix_use_client_directive "/" id (one_page text_misordered)).1 !! "page.js"
    = Some f'
    /\ Py.readlines (text f') = [line_client; line_dynamic; line_other]
    /\ length (Py.readlines (text f')) = length (Py.readlines (text (plain text_misordered))).
Proof.
  apply (repaired_file_rereads_swapped "/" id (one_page text_misordered) "page.js").
  - apply (bool_decide_unpack (NoDup _)). vm_compute. exact I.
  - apply (bool_decide_unpack (_ ∈ _)). vm_compute. exact I.
  - reflexivity.
  - reflexivity.
  - reflexivity.
  - reflexivity.
  - reflexivity.
  - reflexivity.
Defined.

(** X8. When a repaired file has exactly two lines and the second one does
    not end in a newline, [writelines] puts nothing between the exchanged
    lines: the file reads back as ONE line, the old second line followed
    at once by the old first one. *)
Theorem repaired_file_without_final_newline_is_one_line (sep : string)
    (normcase : string -> string) (s : state) (path : string) (f : file)
    (l0 l1 : string) :
  NoDup (glob_js sep normcase (cwd s)) ->
  path ∈ glob_js sep normcase (cwd s) ->
  disk s !! path = Some f ->
  on_read f = None -> on_write f = None ->
  Py.readlines (text f) = [l0; l1] ->
  needs_swap l0 l1 = true ->
  terminated l1 = false ->
  exists f',
    disk (fix_use_client_directive sep normcase s).1 !! path = Some f'
    /\ Py.readlines (text f') = [l1 +:+ l0].
Proof.
  intros Hnd Hpath Hf Hr Hw Hl Hn Hl1.
  by apply (repair_merges_unterminated_line sep normcase s path f l0 l1).
Qed.

Lemma repaired_file_without_final_newline_is_one_line_witness :
  exists f',
    disk (fix_use_client_directive "/" id (one_page text_unterminated)).1 !! "page.js"
    = Some f'
    /\ Py.readlines (text f') = [use_client +:+ line_dynamic].
Proof.
  apply (repaired_file_without_final_newline_is_one_line "/" id
           (one_page text_unterminated) "page.js" (plain text_unterminated)).
  - apply (bool_decide_unpack (NoDup _)). vm_compute. exact I.
  - apply (bool_decide_unpack (_ ∈ _)). vm_compute. exact I.
  - reflexivity.
  - reflexivity.
  - reflexivity.
  - reflexivity.
  - reflexivity.
  - reflexivity.
Defined.



(** X10. The listing names nothing but what matches: every path in it is
    an entry whose name does not start with a dot and ends in [.js] (after
    [os.path.normcase]), reached from the root through directories none of
    whose names starts with a dot. *)
Theorem listing_is_sound (sep : string) (normcase : string -> string)
    (es : list node) (path : string) :
  In path (glob_js sep normcase es) ->
  exists ds es' n,
    dir_at es ds es' /\ In n es'
    /\ Forall (fun d => ishidden d = false) ds
    /\ ishidden (node_name n) = false
    /\ Py.endswith (normcase (node_name n)) ".js" = true
    /\ path = os_path_join sep (dir_path sep ds) (node_name n).
Proof.
  unfold glob_js, glob2.
  intros ([q es'] & Hdir & Hname)%List.in_flat_map.
  apply List.in_map_iff in Hname as (name & <- & Hname).
  destruct (glob1_sound normcase es' name Hname) as (n & Hn & <- & Hvis & Hjs).
  destruct Hdir as [[= <- <-]|Hdir].
  - exists [], es, n. repeat split; try done. constructor.
  - apply List.in_flat_map in Hdir as (n0 & Hn0 & Hdir).
    destruct (rlistdir_entry_sound sep n0 q es' Hdir)
      as (d & es1 & ds & -> & Hat & Hds & ->).
    exists (d :: ds), es', n. repeat split; try done.
    by apply (dir_below _ d es1).
Qed.

Lemma listing_is_sound_witness :
  exists ds es' n,
    dir_at (cwd five_files) ds es' /\ In n es'
    /\ Forall (fun d => ishidden d = false) ds
    /\ ishidden (node_name n) = false
    /\ Py.endswith (id (node_name n)) ".js" = true
    /\ "app/deep/e.js" = os_path_join "/" (dir_path "/" ds) (node_name n).
Proof.
  apply (listing_is_sound "/" id (cwd five_files) "app/deep/e.js").
  vm_compute. do 4 right. by left.
Defined.

(** Well-formedness of a tree given in full. *)
Ltac solve_names_wf :=
  constructor;
  [ apply NoDup_ListNoDup, (bool_decide_unpack (NoDup _)); vm_compute; exact I
  | let n := fresh "n" in
    let Hn := fresh "Hn" in
    intros n Hn; cbn in Hn;
    repeat (destruct Hn as [<-|Hn]; [split; [discriminate|reflexivity]|]);
    destruct Hn
  | let d := fresh "d" in
    let es1 := fresh "es" in
    let Hin := fresh "Hin" in
    let Heq := fresh "Heq" in
    intros d es1 Hin; cbn in Hin;
    repeat (destruct Hin as [Heq|Hin];
            [first [discriminate Heq | injection Heq as <- <-; solve_names_wf]|]);
    destruct Hin ].

(** X11. In a tree as a file system keeps it, where the names within one
    directory differ, are not empty and hold no separator, the run opens
    no path twice. *)
Theorem no_file_is_processed_twice (c : ascii) (normcase : string -> string)
    (s : state) :
  names_wf c (cwd s) ->
  reads s = [] ->
  NoDup (reads (fix_use_client_directive (String c "") normcase s).1).
Proof.
  intros Hwf Hreads.
  destruct (run_unfold (String c "") normcase s) as (s' & count & Hloop & ->).
  cbn [fst reads add_stdout].
  replace s' with (for_files (glob_js (String c "") normcase (cwd s)) 0 s).1
    by by rewrite Hloop.
  rewrite for_files_reads, Hreads. by apply listing_NoDup.
Qed.

Lemma no_file_is_processed_twice_witness :
  NoDup (reads (fix_use_client_directive "/" id five_files).1).
Proof.
  apply (no_file_is_processed_twice "/"%char id five_files); [|reflexivity].
  unfold five_files, machine. cbn [cwd]. solve_names_wf.
Defined.


(** X13. What the run makes of a file depends on that file alone: two
    machines that list a path and hold the same file under it end with
    the same file under it, whatever else they list and in whatever
    order, provided that on each no two listed paths lead to the same
    file, the tree is one that [glob] can walk and every [print]
    succeeds. *)
Theorem file_outcome_depends_on_the_file_alone (env : environment) (sep : string)
    (normcase : string -> string) (s1 s2 : state) (path : string) :
  console_sound env ->
  visible_depth (iterdir env (cwd s1)) <= max_depth env ->
  visible_depth (iterdir env (cwd s2)) <= max_depth env ->
  NoDup (target env <$> listing_on env sep normcase s1) ->
  NoDup (target env <$> listing_on env sep normcase s2) ->
  path ∈ listing_on env sep normcase s1 ->
  path ∈ listing_on env sep normcase s2 ->
  disk s1 !! target env path = disk s2 !! target env path ->
  disk (fix_use_client_directive_on env sep normcase s1).1 !! target env path
  = disk (fix_use_client_directive_on env sep normcase s2).1 !! target env path.
Proof.
  intros Hc Hd1 Hd2 Hnd1 Hnd2 Hp1 Hp2 Heq.
  destruct (for_files_on_distinct_from env (disk s1) _ 0 s1 Hc Hnd1) as (t1 & Hloop1 & Hin1 & _);
    [done|].
  destruct (for_files_on_distinct_from env (disk s2) _ 0 s2 Hc Hnd2) as (t2 & Hloop2 & Hin2 & _);
    [done|].
  destruct (run_on_sound env sep normcase s1 Hc Hd1) as (t1' & c1 & Hloop1' & ->).
  destruct (run_on_sound env sep normcase s2 Hc Hd2) as (t2' & c2 & Hloop2' & ->).
  rewrite Hloop1 in Hloop1'. injection Hloop1' as <- _.
  rewrite Hloop2 in Hloop2'. injection Hloop2' as <- _.
  cbn [fst disk add_stdout].
  by rewrite (Hin1 _ Hp1), (Hin2 _ Hp2), (verdict_at_ext _ _ _ _ Heq), Heq.
Qed.

Lemma file_outcome_depends_on_the_file_alone_witness :
  disk (fix_use_client_directive_on sound_env "/" id with_failures).1 !! "a.js"
  = disk (fix_use_client_directive_on sound_env "/" id five_files).1 !! "a.js".
Proof.
  apply (file_outcome_depends_on_the_file_alone sound_env "/" id with_failures five_files "a.js").
  - intros line. reflexivity.
  - vm_compute. lia.
  - vm_compute. lia.
  - apply (bool_decide_unpack (NoDup _)). vm_compute. exact I.
  - apply (bool_decide_unpack (NoDup _)). vm_compute. exact I.
  - apply (bool_decide_unpack (_ ∈ _)). vm_compute. exact I.
  - apply (bool_decide_unpack (_ ∈ _)). vm_compute. exact I.
  - reflexivity.
Defined.

Section SubstringFacts.

Implicit Types (s n a b : string).

Lemma startswith_iff s n : Py.startswith s n = true <-> exists b, s = n +:+ b.
Proof.
  revert s. induction n as [|c n IH]; intros s.
  - rewrite startswith_empty. split; [by exists s|done].
  - destruct s as [|c' s]; cbn [Py.startswith].
    + split; [done|]. by intros [b [=]].
    + destruct (decide (c = c')) as [<-|Hne].
      * rewrite IH. split; intros [b Hb]; exists b.
        -- by rewrite append_cons, Hb.
        -- rewrite append_cons in Hb. by injection Hb.
      * split; [done|]. intros [b Hb]. rewrite append_cons in Hb. by injection Hb.
Qed.

Lemma contains_iff n s : Py.contains n s = true <-> exists a b, s = a +:+ n +:+ b.
Proof.
  induction s as [|c s IH]; cbn [Py.contains].
  - rewrite orb_false_r, startswith_iff. split.
    + intros [b Hb]. by exists "", b.
    + intros ([|c a] & b & Hab); [by exists b|done].
  - rewrite orb_true_iff, startswith_iff, IH. split.
    + intros [[b Hb]|(a & b & ->)]; [by exists "", b|by exists (String c a), b].
    + intros ([|c' a] & b & Hab); [left; by exists b|right].
      rewrite append_cons in Hab. injection Hab as <- ->. by exists a, b.
Qed.

End SubstringFacts.

(** X14. The test on the first two lines is a pure substring test: it
    fires exactly when line 0 holds [export const dynamic] somewhere and
    line 1 holds ["use client"] somewhere, whatever stands before or after
    them on the line. *)
Theorem needs_swap_is_a_substring_test (l0 l1 : string) :
  needs_swap l0 l1 = true
  <-> (exists a b, l0 = a +:+ "export const dynamic" +:+ b)
      /\ (exists a b, l1 = a +:+ String Py.dquote ("use client" +:+ String Py.dquote "") +:+ b).
Proof.
  unfold needs_swap. rewrite andb_true_iff.
  rewrite (contains_strip export_const_dynamic l0) by reflexivity.
  rewrite (contains_strip use_client l1) by reflexivity.
  by rewrite !contains_iff.
Qed.

(** X15. Reading a text as lines and writing the lines back loses and adds
    nothing: the lines joined are the text again, no line read is empty,
    only the last can lack its newline, and the text written back reads as
    the same lines. *)
Theorem lines_round_trip (s : string) :
  Py.writelines (Py.readlines s) = s
  /\ lines_wf (Py.readlines s)
  /\ Py.readlines (Py.writelines (Py.readlines s)) = Py.readlines s.
Proof.
  repeat split.
  - apply writelines_readlines.
  - apply readlines_wf.
  - by rewrite writelines_readlines.
Qed.
